(** * Deep-Research-Assistant: chunking, vector index and context assembly

  A shallow embedding of the retrieval core of the repository:
  - [EmbeddingService.chunk_text]            (src/services/embeddings.py)
  - [VectorStore]                             (src/services/vector_store.py)
  - the context loop of
    [GeminiClient.answer_question_with_context]
                                              (src/services/gemini_client.py)

  Python [str] values are lists of characters ([list ascii], read as code
  points below 256), Python [int]s are [Z], dictionaries with string keys
  are [gmap string _].  Python lists are modelled by value: no property
  below observes the aliasing of a list between two owners. *)

From Stdlib Require Import ZArith QArith Qround Qabs Qpower List Ascii String Bool.
From Stdlib Require Import DecimalString SpecFloat Sorted Lia Lqa.
From stdpp Require Import base option list gmap strings.
Import ListNotations.

Local Open Scope Z_scope.

(** ** Calls that may raise *)

Module Py.

(** An exception: its class and the text [str(e)] gives. *)
Inductive exn : Type :=
| Exn (class message : string).

Definition exn_str (e : exn) : string :=
  match e with Exn _ message => message end.

(** What a call does when it comes back: it returns a value or raises. *)
Inductive outcome (A : Type) : Type :=
| Returned (a : A)
| Raised (e : exn).
Arguments Returned {A} a.
Arguments Raised {A} e.

End Py.

(** ** Python strings *)

Module PyStr.

Definition str := list ascii.

(** A string literal of the source. *)
Definition lit (s : string) : str := list_ascii_of_string s.

Definition len (s : str) : Z := Z.of_nat (List.length s).

(** [str.isspace] on one character, for code points below 256:
    TAB..CR, FS..US, SPACE, NEL and NBSP. *)
Definition is_space (c : ascii) : bool :=
  let n := Z.of_N (N_of_ascii c) in
  ((9 <=? n) && (n <=? 13)) || ((28 <=? n) && (n <=? 32))
  || (n =? 133) || (n =? 160).

Fixpoint lstrip (s : str) : str :=
  match s with
  | c :: s' => if is_space c then lstrip s' else s
  | [] => []
  end.

Definition rstrip (s : str) : str := rev (lstrip (rev s)).

(** [s.strip()] *)
Definition strip (s : str) : str := rstrip (lstrip s).

(** Truth value of a string: [if chunk:]. *)
Definition truthy (s : str) : bool :=
  match s with [] => false | _ :: _ => true end.

(** [s[i]]: negative indices count from the end; [None] is IndexError. *)
Definition index (s : str) (i : Z) : option ascii :=
  let n := len s in
  if (0 <=? i) && (i <? n) then nth_error s (Z.to_nat i)
  else if (- n <=? i) && (i <? 0) then nth_error s (Z.to_nat (n + i))
  else None.

(** Normalisation of one slice bound, as [PySlice_AdjustIndices] does it
    for step 1. *)
Definition clip (n i : Z) : Z :=
  if i <? 0 then Z.max 0 (i + n) else Z.min i n.

(** [s[a:b]] *)
Definition slice (s : str) (a b : Z) : str :=
  let a' := clip (len s) a in
  let b' := clip (len s) b in
  firstn (Z.to_nat (b' - a')) (skipn (Z.to_nat a') s).

End PyStr.

(** ** The chunker: [EmbeddingService.chunk_text] *)

Module Chunker.
Import Py PyStr.

(** [text[i] in '.!?'] for a one-character string [text[i]]. *)
Definition is_sentence_end (c : ascii) : bool :=
  (Ascii.eqb c "." || Ascii.eqb c "!" || Ascii.eqb c "?")%char.

(** The inner [for i in range(end, lower, -1)] loop, [n] values of [i]
    left, the next one being [i].  [Returned (Some e)] is the [break]
    with [end = e]; [Returned None] is the loop running out. *)
Fixpoint scan_back (text : str) (i : Z) (n : nat) : outcome (option Z) :=
  match n with
  | O => Returned None
  | S n' =>
      match index text i with
      | None => Raised (Exn "IndexError" "string index out of range")
      | Some c =>
          if is_sentence_end c then Returned (Some (i + 1))
          else scan_back text (i - 1) n'
      end
  end.

(** Python's [//] is floor division, as [Z.div] is for a positive
    divisor. *)
Definition lower_bound (start chunk_size end_ : Z) : Z :=
  Z.max (start + chunk_size / 2) (end_ - 100).

(** The value of [end] when the slice is taken. *)
Definition find_end (text : str) (chunk_size start : Z) : outcome Z :=
  let end_ := start + chunk_size in
  if end_ <? len text then
    match scan_back text end_
            (Z.to_nat (end_ - lower_bound start chunk_size end_)) with
    | Raised e => Raised e
    | Returned (Some e) => Returned e
    | Returned None => Returned end_
    end
  else Returned end_.

Definition append_chunk (chunks : list str) (chunk : str) : list str :=
  if truthy chunk then chunks ++ [chunk] else chunks.

(** The [while start < len(text)] loop.  [fuel] bounds the number of
    iterations; [None] means the bound was reached with the loop still
    running. *)
Fixpoint chunk_loop (fuel : nat) (text : str) (chunk_size overlap : Z)
         (start : Z) (chunks : list str) : option (outcome (list str)) :=
  if start <? len text then
    match fuel with
    | O => None
    | S fuel' =>
        match find_end text chunk_size start with
        | Raised e => Some (Raised e)
        | Returned end_ =>
            let chunks' := append_chunk chunks (strip (slice text start end_)) in
            let start' := end_ - overlap in
            if start' >=? len text then Some (Returned chunks')
            else chunk_loop fuel' text chunk_size overlap start' chunks'
        end
    end
  else Some (Returned chunks).

Definition chunk_text (fuel : nat) (text : str) (chunk_size overlap : Z)
  : option (outcome (list str)) :=
  if len text <=? chunk_size then Some (Returned [text])
  else chunk_loop fuel text chunk_size overlap 0 [].

(** The least number of characters by which [end] lies beyond [start]:
    the whole window, or two characters after the lower end of the
    look-back range. *)
Definition min_advance (chunk_size : Z) : Z :=
  Z.min chunk_size (Z.max (chunk_size / 2) (chunk_size - 100) + 2).

(** 201 characters without a sentence end. *)
Definition long_text : str := repeat "a"%char 201.

(** A text for the examples. *)
Definition sample_text : str :=
  lit "Hello world. This is a test! Is it? yes it is ok".

End Chunker.

(** ** The context loop of [GeminiClient.answer_question_with_context] *)

Module Assembler.
Import PyStr.

(** A document chunk as the loop reads it: a dictionary from field names to
    strings. *)
Abbreviation Doc := (gmap string str).

(** [doc.get(key, default)] *)
Definition get (doc : Doc) (key : string) (default_ : str) : str :=
  default default_ (doc !! key).

Definition newline : str := ["010"%char].

(** [doc_text], as the three statements of the loop body build it. *)
Definition format_doc (doc : Doc) : str :=
  let content := get doc "content" (lit "") in
  let title := get doc "title" (lit "Untitled") in
  let url := get doc "url" (lit "") in
  let doc_text := lit "Source: " ++ title in
  let doc_text :=
    if truthy url then doc_text ++ (lit " (" ++ url ++ lit ")") else doc_text in
  doc_text ++ (newline ++ lit "Content: " ++ content ++ newline).

(** The [for doc in context_documents] loop, from the state
    [(context_parts, current_length)] to the state at its end. *)
Fixpoint context_loop (docs : list Doc) (max_context_length : Z)
           (context_parts : list str) (current_length : Z) : list str * Z :=
  match docs with
  | [] => (context_parts, current_length)
  | doc :: rest =>
      let doc_text := format_doc doc in
      if current_length + len doc_text >? max_context_length
      then (context_parts, current_length)
      else context_loop rest max_context_length
                        (context_parts ++ [doc_text])
                        (current_length + len doc_text)
  end.

(** [context_parts] when the loop is over. *)
Definition build_context_parts (docs : list Doc) (max_context_length : Z)
    : list str :=
  fst (context_loop docs max_context_length [] 0).

(** [sep.join(parts)] *)
Fixpoint join (sep : str) (parts : list str) : str :=
  match parts with
  | [] => []
  | [p] => p
  | p :: rest => p ++ sep ++ join sep rest
  end.

(** [context], the text placed in the prompt. *)
Definition build_context (docs : list Doc) (max_context_length : Z) : str :=
  join (newline ++ lit "---" ++ newline) (build_context_parts docs max_context_length).

(** The total formatted length of a list of parts. *)
Definition total_len (parts : list str) : Z :=
  fold_right (fun p acc => len p + acc) 0 parts.

(** The format as the specification words it, with the parenthesised URL
    always present. *)
Definition spec_format_doc (doc : Doc) : str :=
  lit "Source: " ++ get doc "title" (lit "") ++ lit " (" ++ get doc "url" (lit "")
    ++ lit ")" ++ newline ++ lit "Content: " ++ get doc "content" (lit "") ++ newline.

(** Two chunks for the examples: one with a URL, one without. *)
Definition doc_with_url : Doc :=
  <["content" := lit "The sky is blue."]>
    (<["title" := lit "Sky"]> (<["url" := lit "http://a"]> ∅)).

Definition doc_without_url : Doc :=
  <["content" := lit "Water is wet."]>
    (<["title" := lit "Water"]> (<["url" := lit ""]> ∅)).

End Assembler.

(** ** Floating-point numbers

    The index computes in 32-bit floating point ([astype('float32')], FAISS
    distances).  The score [1 / (1 + distance)] is computed by NumPy on a
    [numpy.float32] scalar and the Python integer 1: in [float32] under
    NumPy's current promotion rules, in [float64] under its earlier ones; the
    format of the score is therefore a parameter.

    A value is a rational, an infinity or NaN; an operation is the exact
    one followed by rounding to nearest, ties to even, on the grid of the
    format ([prec]-bit significands, exponents of the unit in the last place
    from [emin] to [emax - prec]).  The sign of zero is not modelled. *)

Module Fp.
Local Open Scope Q_scope.

Record format : Type := { prec : Z; emin : Z; emax : Z }.

Definition binary32 : format := {| prec := 24; emin := -149; emax := 128 |}.
Definition binary64 : format := {| prec := 53; emin := -1074; emax := 1024 |}.

Inductive fp : Type :=
| Finite (q : Q)
| Inf (negative : bool)
| NaN.

Definition Qltb (x y : Q) : bool := negb (Qle_bool y x).

(** Round half to even, to an integer. *)
Definition rne (x : Q) : Z :=
  let f := Qfloor x in
  match Qcompare (x - inject_Z f) (1 # 2) with
  | Lt => f
  | Gt => (f + 1)%Z
  | Eq => if Z.even f then f else (f + 1)%Z
  end.

(** The exponent of the unit in the last place of [x >= 0] for [p]-bit
    significands: the least [e], from [e] on and among [n + 1] candidates,
    with [x < 2 ^ (e + p)]. *)
Fixpoint find_exp (p : Z) (n : nat) (e : Z) (x : Q) : Z :=
  match n with
  | O => e
  | S n' => if Qltb x (2 ^ (e + p)) then e else find_exp p n' (e + 1)%Z x
  end.

(** The number of exponents of a format. *)
Definition exponents (fmt : format) : nat :=
  Z.to_nat (emax fmt - prec fmt - emin fmt + 1).

Definition cexp (fmt : format) (x : Q) : Z :=
  find_exp (prec fmt) (exponents fmt) (emin fmt) (Qabs x).

(** The rounded value, before the overflow test. *)
Definition round_val (fmt : format) (x : Q) : Q :=
  inject_Z (rne (x / 2 ^ cexp fmt x)) * 2 ^ cexp fmt x.

Definition round (fmt : format) (x : Q) : fp :=
  let y := round_val fmt x in
  if Qle_bool (2 ^ emax fmt) (Qabs y) then Inf (Qltb x 0) else Finite (Qred y).

Definition zero : fp := Finite 0.
Definition one : fp := Finite 1.

(** The largest finite value of a format. *)
Definition max_finite (fmt : format) : Q :=
  Qred (inject_Z (2 ^ prec fmt - 1) * 2 ^ (emax fmt - prec fmt)).

(** [FLT_MAX] *)
Definition flt_max : fp := Finite (max_finite binary32).

Definition fp_opp (a : fp) : fp :=
  match a with
  | Finite x => Finite (Qred (- x))
  | Inf s => Inf (negb s)
  | NaN => NaN
  end.

Definition fp_add (fmt : format) (a b : fp) : fp :=
  match a, b with
  | Finite x, Finite y => round fmt (x + y)
  | Finite _, Inf s | Inf s, Finite _ => Inf s
  | Inf s, Inf t => if Bool.eqb s t then Inf s else NaN
  | _, _ => NaN
  end.

Definition fp_sub (fmt : format) (a b : fp) : fp := fp_add fmt a (fp_opp b).

Definition fp_mul (fmt : format) (a b : fp) : fp :=
  match a, b with
  | Finite x, Finite y => round fmt (x * y)
  | Finite x, Inf s | Inf s, Finite x =>
      if Qeq_bool x 0 then NaN else Inf (xorb s (Qltb x 0))
  | Inf s, Inf t => Inf (xorb s t)
  | _, _ => NaN
  end.

Definition fp_div (fmt : format) (a b : fp) : fp :=
  match a, b with
  | Finite x, Finite y =>
      if Qeq_bool y 0
      then (if Qeq_bool x 0 then NaN else Inf (Qltb x 0))
      else round fmt (x / y)
  | Finite _, Inf _ => Finite 0
  | Inf s, Finite y => Inf (xorb s (Qltb y 0))
  | _, _ => NaN
  end.

(** The comparisons; every comparison with NaN is false. *)
Definition fp_leb (a b : fp) : bool :=
  match a, b with
  | Finite x, Finite y => Qle_bool x y
  | Finite _, Inf s => negb s
  | Inf s, Finite _ => s
  | Inf s, Inf t => s || negb t
  | _, _ => false
  end.

Definition fp_ltb (a b : fp) : bool :=
  match a, b with
  | Finite x, Finite y => Qltb x y
  | Finite _, Inf s => negb s
  | Inf s, Finite _ => s
  | Inf s, Inf t => s && negb t
  | _, _ => false
  end.

(** The value of a number of the Standard Library's IEEE 754
    specification, to compare the operations above with it. *)
Definition of_spec_float (x : spec_float) : fp :=
  match x with
  | S754_zero _ => Finite 0
  | S754_infinity s => Inf s
  | S754_nan => NaN
  | S754_finite s m e =>
      Finite (Qred ((if s then -1 else 1) * inject_Z (Zpos m) * 2 ^ e))
  end.

(** Not below zero: a finite value that is not negative, the positive
    infinity, or NaN. *)
Definition not_negative (a : fp) : Prop :=
  match a with
  | Finite q => 0 <= q
  | Inf s => s = false
  | NaN => True
  end.

(** What the properties of the score need of its format, each a fact about
    one rounding: significands have a bit, 0 and 1 are kept, [1 + FLT_MAX]
    does not overflow and the inverse of what it rounds to is not flushed
    to zero. *)
Definition carries_scores (fmt : format) : Prop :=
  (1 <= prec fmt)%Z
  /\ round fmt 0 = Finite 0
  /\ round fmt 1 = Finite 1
  /\ round_val fmt 1 == 1
  /\ round_val fmt (1 + max_finite binary32) < 2 ^ emax fmt
  /\ fp_ltb zero (round fmt (1 / round_val fmt (1 + max_finite binary32))) = true.

End Fp.

(** ** NumPy arrays and the FAISS flat index

    Both are libraries the repository calls; they are modelled as far as
    [VectorStore] uses them. *)

Module Faiss.
Import Py Fp.

(** A vector of [float32] values. *)
Definition vec := list fp.

(** An array of [float32]: one-dimensional, or two-dimensional with its
    number of columns and its rows. *)
Inductive ndarray : Type :=
| Array1 (v : vec)
| Array2 (ncols : nat) (rows : list vec).

(** [len(a)] *)
Definition np_len (a : ndarray) : nat :=
  match a with
  | Array1 v => List.length v
  | Array2 _ rows => List.length rows
  end.

(** [a.shape[1]] *)
Definition shape1 (a : ndarray) : outcome nat :=
  match a with
  | Array1 _ => Raised (Exn "IndexError" "tuple index out of range")
  | Array2 ncols _ => Returned ncols
  end.

(** [a.reshape(1, -1)] of a one-dimensional array. *)
Definition reshape_row (a : ndarray) : ndarray :=
  match a with
  | Array1 v => Array2 (List.length v) [v]
  | Array2 _ _ => a
  end.

(** [faiss.IndexFlatL2]: the dimension and the stored vectors, in the order
    they were added. *)
Record IndexFlatL2 : Type := { d : nat; xb : list vec }.

(** [index.ntotal] *)
Definition ntotal (index : IndexFlatL2) : nat := List.length (xb index).

(** [faiss.IndexFlatL2(d)] *)
Definition new_index (dim : nat) : IndexFlatL2 := {| d := dim; xb := [] |}.

(** [index.add(x)]: [n, d = x.shape; assert d == self.d], then the rows are
    appended. *)
Definition add (index : IndexFlatL2) (x : ndarray) : outcome IndexFlatL2 :=
  match x with
  | Array1 _ =>
      Raised (Exn "ValueError" "not enough values to unpack (expected 2, got 1)")
  | Array2 ncols rows =>
      if Nat.eqb ncols (d index)
      then Returned {| d := d index; xb := xb index ++ rows |}
      else Raised (Exn "AssertionError" "")
  end.

(** Squared Euclidean distance, accumulated from the first coordinate on. *)
Fixpoint fvec_L2sqr_from (acc : fp) (x y : vec) : fp :=
  match x, y with
  | a :: x', b :: y' =>
      let tmp := fp_sub binary32 a b in
      fvec_L2sqr_from (fp_add binary32 acc (fp_mul binary32 tmp tmp)) x' y'
  | _, _ => acc
  end.

Definition fvec_L2sqr (x y : vec) : fp := fvec_L2sqr_from zero x y.

(** One entry of a search result: distance and label. *)
Definition hit : Type := fp * Z.

(** Insertion behind the entries that are not farther: equal distances
    keep the order of insertion. *)
Fixpoint insert_hit (h : hit) (l : list hit) : list hit :=
  match l with
  | [] => [h]
  | h' :: t => if fp_ltb (fst h) (fst h') then h :: l else h' :: insert_hit h t
  end.

Definition sort_hits (l : list hit) : list hit :=
  fold_left (fun acc h => insert_hit h acc) l [].

Fixpoint distances_from (i : Z) (q : vec) (vectors : list vec) : list hit :=
  match vectors with
  | [] => []
  | v :: rest => (fvec_L2sqr q v, i) :: distances_from (i + 1) q rest
  end.

(** The [k] nearest stored vectors of one query: only distances below
    [FLT_MAX] enter the result, nearest first, and the places left are
    filled with distance [FLT_MAX] and label -1. *)
Definition knn (index : IndexFlatL2) (q : vec) (k : nat) : list hit :=
  let candidates :=
    List.filter (fun h : hit => fp_ltb (fst h) flt_max)
                (distances_from 0 q (xb index)) in
  let best := take k (sort_hits candidates) in
  best ++ repeat (flt_max, (-1)%Z) (k - List.length best).

(** [index.search(x, k)]: [n, d = x.shape; assert d == self.d;
    assert k > 0], then one row of hits for each query row. *)
Definition search (index : IndexFlatL2) (x : ndarray) (k : Z)
    : outcome (list (list hit)) :=
  match x with
  | Array1 _ =>
      Raised (Exn "ValueError" "not enough values to unpack (expected 2, got 1)")
  | Array2 ncols rows =>
      if negb (Nat.eqb ncols (d index)) then Raised (Exn "AssertionError" "")
      else if (k <=? 0)%Z then Raised (Exn "AssertionError" "")
      else Returned (map (fun q => knn index q (Z.to_nat k)) rows)
  end.

End Faiss.

(** ** The vector store: [VectorStore] *)

Module VectorStore.
Import Py PyStr Fp Faiss.

(** A stored document; the store never looks inside. *)
Abbreviation Doc := (gmap string str).

(** The three fields of the object. *)
Record store : Type := {
  index : option IndexFlatL2;
  documents : list Doc;
  dimension : option nat
}.

(** [VectorStore()] *)
Definition init : store :=
  {| index := None; documents := []; dimension := None |}.

(** The calls to Streamlit's message functions. *)
Inductive st_call : Type :=
| st_error (message : str)
| st_warning (message : str)
| st_success (message : str).

(** What a method call leaves behind: the value returned, the object and
    the messages shown. *)
Record call (A : Type) : Type := {
  returned : A;
  self_after : store;
  shown : list st_call
}.
Arguments returned {A} c.
Arguments self_after {A} c.
Arguments shown {A} c.

(** [str(n)] in an f-string. *)
Definition str_of_nat (n : nat) : str :=
  lit (DecimalString.NilZero.string_of_uint (Nat.to_uint n)).

Definition create_index (self : store) (embeddings : ndarray)
             (docs : list Doc) : call bool :=
  if Nat.eqb (np_len embeddings) 0 then
    {| returned := false; self_after := self;
       shown := [st_error (lit "No embeddings provided!")] |}
  else
    match shape1 embeddings with
    | Raised e =>
        {| returned := false; self_after := self;
           shown := [st_error (lit "Error creating vector store: " ++ lit (exn_str e))] |}
    | Returned dim =>
        match add (new_index dim) embeddings with
        | Raised e =>
            {| returned := false;
               self_after := {| index := Some (new_index dim);
                                documents := documents self;
                                dimension := Some dim |};
               shown := [st_error (lit "Error creating vector store: "
                                   ++ lit (exn_str e))] |}
        | Returned index' =>
            {| returned := true;
               self_after := {| index := Some index'; documents := docs;
                                dimension := Some dim |};
               shown := [st_success (lit "Vector store created with "
                                     ++ str_of_nat (List.length docs)
                                     ++ lit " documents!")] |}
        end
    end.

Definition add_documents (self : store) (embeddings : ndarray)
             (docs : list Doc) : call bool :=
  match index self with
  | None => create_index self embeddings docs
  | Some index0 =>
      match add index0 embeddings with
      | Raised e =>
          {| returned := false; self_after := self;
             shown := [st_error (lit "Error adding documents to vector store: "
                                 ++ lit (exn_str e))] |}
      | Returned index' =>
          {| returned := true;
             self_after := {| index := Some index';
                              documents := documents self ++ docs;
                              dimension := dimension self |};
             shown := [st_success (lit "Added " ++ str_of_nat (List.length docs)
                                   ++ lit " documents to vector store!")] |}
      end
  end.

(** [documents[idx]], negative labels counting from the end. *)
Definition doc_at (docs : list Doc) (idx : Z) : outcome Doc :=
  let n := Z.of_nat (List.length docs) in
  let i := if (idx <? 0)%Z then (idx + n)%Z else idx in
  if ((0 <=? i) && (i <? n))%Z then
    match nth_error docs (Z.to_nat i) with
    | Some doc => Returned doc
    | None => Raised (Exn "IndexError" "list index out of range")
    end
  else Raised (Exn "IndexError" "list index out of range").

(** *** Searching

    [score_format] is the format in which NumPy evaluates
    [1 / (1 + distance)]. *)

Section Scores.

Variable score_format : format.

(** [similarity = 1 / (1 + distance)] *)
Definition similarity (distance : fp) : fp :=
  fp_div score_format one (fp_add score_format one distance).

(** The loop over [zip(distances[0], indices[0])]. *)
Fixpoint collect_results (docs : list Doc) (hits : list hit)
         (results : list (Doc * fp)) : outcome (list (Doc * fp)) :=
  match hits with
  | [] => Returned results
  | (distance, idx) :: rest =>
      if (idx <? Z.of_nat (List.length docs))%Z then
        match doc_at docs idx with
        | Raised e => Raised e
        | Returned doc =>
            collect_results docs rest (results ++ [(doc, similarity distance)])
        end
      else collect_results docs rest results
  end.

(** The body of [search] inside its [try]. *)
Definition search_body (index0 : IndexFlatL2) (docs : list Doc)
           (query_embedding : ndarray) (top_k : Z)
  : outcome (list (Doc * fp)) :=
  let query :=
    match query_embedding with
    | Array1 _ => reshape_row query_embedding
    | Array2 _ _ => query_embedding
    end in
  match Faiss.search index0 query (Z.min top_k (Z.of_nat (List.length docs))) with
  | Raised e => Raised e
  | Returned [] =>
      Raised (Exn "IndexError" "index 0 is out of bounds for axis 0 with size 0")
  | Returned (hits :: _) => collect_results docs hits []
  end.

(** [search]: the results and the messages shown; the object is only
    read. *)
Definition search (self : store) (query_embedding : ndarray) (top_k : Z)
  : list (Doc * fp) * list st_call :=
  match index self with
  | None => ([], [st_warning (lit "Vector store is empty!")])
  | Some index0 =>
      if Nat.eqb (List.length (documents self)) 0
      then ([], [st_warning (lit "Vector store is empty!")])
      else
        match search_body index0 (documents self) query_embedding top_k with
        | Returned results => (results, [])
        | Raised e =>
            ([], [st_error (lit "Error searching vector store: " ++ lit (exn_str e))])
        end
  end.

End Scores.

(** The dictionary [get_stats] returns. *)
Record stats : Type := {
  num_documents : nat;
  stats_dimension : option nat;
  has_index : bool;
  index_size : nat
}.

Definition get_stats (self : store) : stats :=
  {| num_documents := List.length (documents self);
     stats_dimension := dimension self;
     has_index := match index self with Some _ => true | None => false end;
     index_size := match index self with Some i => ntotal i | None => 0%nat end |}.

(** *** Saving to and loading from the session

    [faiss.write_index] and [faiss.read_index] go through a temporary file;
    the file system is taken to work and [write_index] not to raise.  The
    serialised form and the two functions are those of the library. *)

Section Session.

Variable index_bytes : Type.
Variable write_index : IndexFlatL2 -> index_bytes.
Variable read_index : index_bytes -> outcome IndexFlatL2.

(** The entry [st.session_state['vector_store_data']]. *)
Record saved_data : Type := {
  saved_index_bytes : index_bytes;
  saved_documents : list Doc;
  saved_dimension : option nat
}.

(** The object together with the session entry, [None] when the key is
    absent. *)
Record world : Type := {
  self : store;
  session_entry : option saved_data
}.

Definition save_to_session_state (w : world) : world * list st_call :=
  match index (self w) with
  | Some index0 =>
      ({| self := self w;
          session_entry :=
            Some {| saved_index_bytes := write_index index0;
                    saved_documents := documents (self w);
                    saved_dimension := dimension (self w) |} |},
       [st_success (lit "Vector store saved to session!")])
  | None => (w, [])
  end.

Definition load_from_session_state (w : world) : bool * world * list st_call :=
  match session_entry w with
  | Some data =>
      match read_index (saved_index_bytes data) with
      | Returned index0 =>
          (true,
           {| self := {| index := Some index0;
                         documents := saved_documents data;
                         dimension := saved_dimension data |};
              session_entry := session_entry w |},
           [st_success (lit "Vector store loaded with "
                        ++ str_of_nat (List.length (saved_documents data))
                        ++ lit " documents!")])
      | Raised e =>
          (false, w, [st_error (lit "Error loading vector store: " ++ lit (exn_str e))])
      end
  | None => (false, w, [])
  end.

(** [restore(snapshot())]: the object of [w] is saved, and the entry it
    leaves is loaded into the object [target] (the same object, or the new
    one the application creates when it starts). *)
Definition save_then_load (w : world) (target : store)
  : bool * world * list st_call :=
  load_from_session_state
    {| self := target;
       session_entry := session_entry (fst (save_to_session_state w)) |}.

Definition clear (w : world) : world * list st_call :=
  ({| self := init; session_entry := None |},
   [st_success (lit "Vector store cleared!")]).

End Session.

Arguments self {index_bytes} w.
Arguments session_entry {index_bytes} w.

(** Examples: two unit vectors, their documents, and a query. *)
Definition two_vectors : ndarray :=
  Array2 2 [[Finite 1; Finite 0]; [Finite 0; Finite 1]].

Definition doc_sky : Doc := <["content" := lit "The sky is blue."]> ∅.
Definition doc_water : Doc := <["content" := lit "Water is wet."]> ∅.

Definition query_near_sky : ndarray :=
  Array2 2 [[Finite (7 # 8); Finite (1 # 8)]].

Definition query_near_water : ndarray :=
  Array2 2 [[Finite (1 # 8); Finite (7 # 8)]].

Definition two_doc_store : store :=
  self_after (create_index init two_vectors [doc_sky; doc_water]).

(** Two vectors stored with one document. *)
Definition mismatched_store : store :=
  self_after (create_index init two_vectors [doc_sky]).

(** Two one-dimensional vectors at distance [2 ^ -30]. *)
Definition close_vectors : list vec := [[Finite 0]; [Finite (1 # 1073741824)]].

Definition close_store : store :=
  self_after (create_index init (Array2 1 close_vectors) [doc_sky; doc_water]).

(** [2 ^ -60], the square of that distance. *)
Definition tiny_distance : Q := 1 # 1152921504606846976.

(** A serialised form for the examples: the index itself. *)
Definition id_write (i : IndexFlatL2) : IndexFlatL2 := i.
Definition id_read (b : IndexFlatL2) : outcome IndexFlatL2 := Returned b.

End VectorStore.

(** ** What a vector store keeps

    Predicates for the properties of the store's methods. *)

Module StoreInvariants.
Import Py PyStr Fp Faiss VectorStore.

(** The bookkeeping of the fields: without an index there are no documents
    and no dimension; with one, [dimension] is the index's. *)
Definition coherent (s : store) : Prop :=
  match index s with
  | None => documents s = [] /\ dimension s = None
  | Some index0 => dimension s = Some (d index0)
  end.

(** As many vectors as documents. *)
Definition in_lockstep (s : store) : Prop :=
  match index s with
  | None => documents s = []
  | Some index0 => ntotal index0 = List.length (documents s)
  end.

(** A batch whose vectors and documents correspond one to one. *)
Definition matched_batch (embeddings : ndarray) (docs : list Doc) : Prop :=
  np_len embeddings = List.length docs.

(** Scores that never go up along a list of results. *)
Definition scores_descend (results : list (Doc * fp)) : Prop :=
  StronglySorted (fun a b => fp_leb (snd b) (snd a) = true) results.

(** Distances that never go down along a list of hits. *)
Definition distances_ascend (hits : list hit) : Prop :=
  StronglySorted (fun a b => fp_leb (fst a) (fst b) = true) hits.

(** A distance the index reports: finite, not negative, at most
    [FLT_MAX]. *)
Definition reported (dist : fp) : Prop :=
  exists x : Q, dist = Finite x /\ (0 <= x)%Q /\ fp_leb (Finite x) flt_max = true.

(** What makes [search] fail on a store that has an index and documents:
    a query of another width or without a row, or a [top_k] below 1. *)
Definition bad_query (index0 : IndexFlatL2) (query_embedding : ndarray)
           (top_k : Z) : Prop :=
  (top_k <= 0)%Z
  \/ match query_embedding with
     | Array1 v => List.length v <> d index0
     | Array2 ncols rows => ncols <> d index0 \/ rows = []
     end.

(** A query [search] can run: of the index's width, with a row. *)
Definition good_query (index0 : IndexFlatL2) (query_embedding : ndarray) : Prop :=
  match query_embedding with
  | Array1 v => List.length v = d index0
  | Array2 ncols rows => ncols = d index0 /\ rows <> []
  end.

(** For the examples: a [read_index] that raises. *)
Definition broken_read (b : IndexFlatL2) : outcome IndexFlatL2 :=
  Raised (Exn "RuntimeError" "Error in faiss::read_index").

End StoreInvariants.

(** ** Preparing documents: [EmbeddingService.process_documents_for_embedding] *)

Module Embedding.
Import Py PyStr Chunker.

(** A document as the services hand it over: a dictionary from field names
    to strings. *)
Abbreviation Doc := (gmap string str).

(** [doc.get(key, '')] *)
Definition field (doc : Doc) (key : string) : str :=
  default (lit "") (doc !! key).

(** The value under ['metadata'] of a chunk. *)
Record chunk_metadata : Type := {
  filename : str;
  type_ : str;
  authors : str;
  publish_date : str
}.

(** The dictionary built for one chunk. *)
Record chunk_doc : Type := {
  content : str;
  title : str;
  url : str;
  source : str;
  chunk_id : nat;
  total_chunks : nat;
  metadata : chunk_metadata
}.

(** The default of [chunk_text]'s [overlap], which the call
    [self.chunk_text(content, chunk_size)] leaves in place. *)
Definition default_overlap : Z := 200.

(** The inner loop [for i, chunk in enumerate(chunks)], from index [i] on;
    [total] is [len(chunks)]. *)
Fixpoint chunk_records (doc : Doc) (total : nat) (i : nat) (chunks : list str)
  : list chunk_doc :=
  match chunks with
  | [] => []
  | chunk :: rest =>
      {| content := chunk;
         title := field doc "title";
         url := field doc "url";
         source := field doc "source";
         chunk_id := i;
         total_chunks := total;
         metadata := {| filename := field doc "filename";
                        type_ := field doc "type";
                        authors := field doc "authors";
                        publish_date := field doc "publish_date" |} |}
      :: chunk_records doc total (S i) rest
  end.

(** The outer loop, from the list [processed_chunks] built so far.  [fuel]
    bounds the iterations of each call of [chunk_text]; an exception of
    [chunk_text] is not caught. *)
Fixpoint process_loop (fuel : nat) (documents : list Doc) (chunk_size : Z)
         (processed_chunks : list chunk_doc) : option (outcome (list chunk_doc)) :=
  match documents with
  | [] => Some (Returned processed_chunks)
  | doc :: rest =>
      let content := field doc "content" in
      if truthy content then
        match chunk_text fuel content chunk_size default_overlap with
        | None => None
        | Some (Raised e) => Some (Raised e)
        | Some (Returned chunks) =>
            process_loop fuel rest chunk_size
              (processed_chunks
               ++ chunk_records doc (List.length chunks) 0 chunks)
        end
      else process_loop fuel rest chunk_size processed_chunks
  end.

Definition process_documents_for_embedding (fuel : nat) (documents : list Doc)
           (chunk_size : Z) : option (outcome (list chunk_doc)) :=
  process_loop fuel documents chunk_size [].

(** [if not content: continue] *)
Definition has_content (doc : Doc) : bool := truthy (field doc "content").

(** [c] stands in [text] as one piece. *)
Definition part_of (text c : str) : Prop :=
  exists before after, text = before ++ c ++ after.

(** The piece [c] of [text] takes in the position [p]. *)
Definition holds_position (text c : str) (p : nat) : Prop :=
  exists before after,
    text = before ++ c ++ after
    /\ (List.length before <= p < List.length before + List.length c)%nat.

(** The positions below [bound] with a character that is no white space
    are each inside one of the chunks. *)
Definition kept_upto (text : str) (chunks : list str) (bound : Z) : Prop :=
  forall (p : nat) (c : ascii),
    Z.of_nat p < bound -> nth_error text p = Some c -> is_space c = false ->
    exists chunk, In chunk chunks /\ holds_position text chunk p.

(** Documents for the examples. *)
Definition short_doc : Doc :=
  <["content" := lit "The sky is blue."]> (<["title" := lit "Sky"]> ∅).

Definition empty_doc : Doc :=
  <["content" := lit ""]> (<["title" := lit "Nothing"]> ∅).

Definition untitled_doc : Doc := <["url" := lit "http://a"]> ∅.

End Embedding.

(** ** The prompts of [GeminiClient] and the reading of its answers

    [generate_response] sends a prompt to the model and hands back its text
    (or a text that tells of the failure); what the model says is not the
    program's, so the call is a parameter. *)

Module Gemini.
Import PyStr Assembler.

Definition dquote : str := ["034"%char].

(** [str.isdigit] on one character, for code points below 256: the ten
    digits and the superscripts two, three and one. *)
Definition is_digit (c : ascii) : bool :=
  let n := Z.of_N (N_of_ascii c) in
  ((48 <=? n) && (n <=? 57)) || (n =? 178) || (n =? 179) || (n =? 185).

(** [s.startswith(c)] for a one-character string [c]. *)
Definition startswith (s : str) (c : ascii) : bool :=
  match s with
  | c' :: _ => Ascii.eqb c' c
  | [] => false
  end.

(** [s.endswith(c)] for a one-character string [c]. *)
Definition endswith (s : str) (c : ascii) : bool := startswith (rev s) c.

(** [c in s] for a one-character string [c]. *)
Definition contains (s : str) (c : ascii) : bool := existsb (Ascii.eqb c) s.

(** [s.split(sep)] for a one-character string [sep]. *)
Fixpoint split (s : str) (sep : ascii) : list str :=
  match s with
  | [] => [[]]
  | c :: s' =>
      if Ascii.eqb c sep then [] :: split s' sep
      else match split s' sep with
           | piece :: pieces => (c :: piece) :: pieces
           | [] => [[c]]
           end
  end.

(** [s.split(sep, 1)[-1]] for a one-character string [sep]: what follows
    the first [sep], or all of [s] when it has none. *)
Fixpoint after_sep (s : str) (sep : ascii) : option str :=
  match s with
  | [] => None
  | c :: s' => if Ascii.eqb c sep then Some s' else after_sep s' sep
  end.

Definition split_once_last (s : str) (sep : ascii) : str :=
  default s (after_sep s sep).

(** [line[0].isdigit()], behind the test that [line] is not empty. *)
Definition starts_with_digit (line : str) : bool :=
  match line with
  | c :: _ => is_digit c
  | [] => false
  end.

(** The loop [for line in lines] of [generate_follow_up_questions], from
    the list [questions] built so far. *)
Fixpoint parse_lines (lines : list str) (questions : list str) : list str :=
  match lines with
  | [] => questions
  | line :: rest =>
      let line := strip line in
      if truthy line && (starts_with_digit line || startswith line "-")
      then
        let question := strip (split_once_last line ".") in
        let question :=
          if contains line "-" then strip (split_once_last line "-")
          else question in
        if truthy question && endswith question "?"
        then parse_lines rest (questions ++ [question])
        else parse_lines rest questions
      else parse_lines rest questions
  end.

(** What [generate_follow_up_questions] makes of the model's answer. *)
Definition parse_questions (response : str) : list str :=
  take 5 (parse_lines (split response "010") []).

(** The summary of one document in [summarize_research]. *)
Definition doc_summary (doc : Doc) : str :=
  let title := get doc "title" (lit "Untitled") in
  let content := get doc "content" (lit "") in
  let url := get doc "url" (lit "") in
  let content :=
    if len content >? 500 then slice content 0 500 ++ lit "..." else content in
  let summary := lit "**" ++ title ++ lit "**" in
  let summary :=
    if truthy url then summary ++ (lit " (" ++ url ++ lit ")") else summary in
  summary ++ (newline ++ content).

(** [doc_summaries] of [summarize_research], over [documents[:10]]. *)
Definition doc_summaries (documents : list Doc) : list str :=
  map doc_summary (take 10 documents).

Definition combined_content (documents : list Doc) : str :=
  join (newline ++ newline ++ lit "---" ++ newline ++ newline)
       (doc_summaries documents).

Definition summary_prompt (documents : list Doc) (topic : str) : str :=
  lit "Please create a comprehensive research summary about " ++ dquote
    ++ topic ++ dquote ++ lit " based on the following sources:" ++ newline
    ++ newline
    ++ combined_content documents ++ newline
    ++ newline
    ++ lit "Please provide:" ++ newline
    ++ lit "1. An executive summary of the key findings" ++ newline
    ++ lit "2. Main themes and insights discovered" ++ newline
    ++ lit "3. Important statistics or facts (if any)" ++ newline
    ++ lit "4. Different perspectives or viewpoints presented" ++ newline
    ++ lit "5. Areas that might need further research" ++ newline
    ++ newline
    ++ lit "Format the response in a clear, well-structured manner.".

(** One line of [doc_summaries] in [generate_follow_up_questions]. *)
Definition key_finding (doc : Doc) : str :=
  let title := get doc "title" (lit "Untitled") in
  let content := slice (get doc "content" (lit "")) 0 300 ++ lit "..." in
  lit "- " ++ title ++ lit ": " ++ content.

Definition combined_summaries (documents : list Doc) : str :=
  join newline (map key_finding (take 5 documents)).

Definition follow_up_prompt (topic : str) (documents : list Doc) : str :=
  lit "Based on the research about " ++ dquote ++ topic ++ dquote
    ++ lit " and the following key findings:" ++ newline
    ++ newline
    ++ combined_summaries documents ++ newline
    ++ newline
    ++ lit "Generate 5 relevant follow-up questions that would help deepen understanding of this topic. "
    ++ newline
    ++ lit "The questions should be:" ++ newline
    ++ lit "1. Specific and actionable" ++ newline
    ++ lit "2. Build upon the existing research" ++ newline
    ++ lit "3. Address different aspects or perspectives" ++ newline
    ++ lit "4. Help identify gaps or areas for further investigation" ++ newline
    ++ newline
    ++ lit "Format as a numbered list:".

Definition answer_prompt (question context : str) : str :=
  lit "Based on the following research context, please answer the user's question. "
    ++ newline
    ++ lit "Provide a comprehensive, accurate answer and cite the relevant sources when possible."
    ++ newline
    ++ newline
    ++ lit "RESEARCH CONTEXT:" ++ newline
    ++ context ++ newline
    ++ newline
    ++ lit "QUESTION: " ++ question ++ newline
    ++ newline
    ++ lit "Please provide a detailed answer based on the context above. If the context doesn't contain enough information to fully answer the question, please indicate what information is missing and provide what insights you can based on the available context.".

Section Model.

(** [self.generate_response(prompt, max_tokens)] *)
Variable generate_response : str -> Z -> str.

Definition answer_question_with_context (question : str)
           (context_documents : list Doc) (max_context_length : Z) : str :=
  match context_documents with
  | [] => generate_response (lit "Question: " ++ question) 1000
  | _ :: _ =>
      generate_response
        (answer_prompt question
                       (build_context context_documents max_context_length))
        1500
  end.

Definition summarize_research (documents : list Doc) (topic : str) : str :=
  match documents with
  | [] => lit "No documents provided for summarization."
  | _ :: _ => generate_response (summary_prompt documents topic) 2000
  end.

Definition generate_follow_up_questions (topic : str) (documents : list Doc)
  : list str :=
  match documents with
  | [] => []
  | _ :: _ =>
      parse_questions (generate_response (follow_up_prompt topic documents) 500)
  end.

End Model.

(** No leading or trailing white space. *)
Definition trimmed (s : str) : Prop := strip s = s.

(** A well-formed question: not empty, trimmed, ending in a question
    mark. *)
Definition well_formed_question (q : str) : Prop :=
  q <> [] /\ trimmed q /\ endswith q "?" = true.

(** [rest] is what follows the first [sep] of [line]. *)
Definition follows_first (line : str) (sep : ascii) (rest : str) : Prop :=
  exists before, line = before ++ sep :: rest /\ contains before sep = false.

(** A list item: a line that begins with a digit or a hyphen. *)
Definition list_item (line : str) : Prop :=
  starts_with_digit line || startswith line "-" = true.

(** An answer of the model for the examples: three list items, one with a
    hyphen inside, and a line that is no list item. *)
Definition sample_response : str :=
  lit "Here are some questions:" ++ newline
    ++ lit "1. What is a well-known fact?" ++ newline
    ++ lit "2. Why is the sky blue?" ++ newline
    ++ lit "  - How so?  " ++ newline
    ++ lit "3. Not a question.".

(** An answer that always repeats the examples' answer. *)
Definition canned_response (prompt : str) (max_tokens : Z) : str :=
  sample_response.

End Gemini.

(** * Properties *)

(** ** Facts about Python strings *)

Module PyStrFacts.
Import PyStr.

Lemma len_nonneg (s : str) : 0 <= len s.
Proof. unfold len. lia. Qed.

Lemma len_nil_inv (s : str) : len s <= 0 -> s = [].
Proof. destruct s; [reflexivity | unfold len; simpl; lia]. Qed.

Lemma lstrip_length (s : str) : (List.length (lstrip s) <= List.length s)%nat.
Proof.
  induction s as [|c s IH]; simpl; [lia|].
  destruct (is_space c); simpl; lia.
Qed.

Lemma strip_len (s : str) : len (strip s) <= len s.
Proof.
  unfold strip, rstrip, len.
  rewrite length_rev.
  pose proof (lstrip_length (rev (lstrip s))) as H1.
  rewrite length_rev in H1.
  pose proof (lstrip_length s). lia.
Qed.

Lemma lstrip_snoc (l : str) (c : ascii) :
  is_space c = false -> lstrip (l ++ [c]) = lstrip l ++ [c].
Proof.
  intros Hc. induction l as [|x l IH]; simpl.
  - now rewrite Hc.
  - destruct (is_space x); [exact IH | reflexivity].
Qed.

(** The two shapes of a left-stripped string. *)
Lemma lstrip_head (s : str) :
  lstrip s = [] \/ exists c t, lstrip s = c :: t /\ is_space c = false.
Proof.
  induction s as [|x s IH]; simpl; [now left|].
  destruct (is_space x) eqn:E; [exact IH|].
  right. now exists x, s.
Qed.

Lemma lstrip_fix (c : ascii) (t : str) :
  is_space c = false -> lstrip (c :: t) = c :: t.
Proof. intros H. simpl. now rewrite H. Qed.

Lemma rstrip_cons (c : ascii) (t : str) :
  is_space c = false -> rstrip (c :: t) = c :: rstrip t.
Proof.
  intros H. unfold rstrip. simpl.
  rewrite lstrip_snoc by exact H.
  now rewrite rev_app_distr.
Qed.

Lemma rstrip_idem (s : str) : rstrip (rstrip s) = rstrip s.
Proof.
  unfold rstrip. rewrite rev_involutive.
  destruct (lstrip_head (rev s)) as [E | (c & t & E & Hc)]; rewrite E.
  - reflexivity.
  - now rewrite lstrip_fix.
Qed.

(** Stripping twice is stripping once. *)
Lemma strip_idem (s : str) : strip (strip s) = strip s.
Proof.
  unfold strip.
  destruct (lstrip_head s) as [E | (c & t & E & Hc)]; rewrite E.
  - reflexivity.
  - rewrite rstrip_cons by exact Hc.
    rewrite lstrip_fix by exact Hc.
    rewrite <- rstrip_cons by exact Hc.
    apply rstrip_idem.
Qed.

Lemma truthy_true (s : str) : truthy s = true <-> s <> [].
Proof. destruct s; simpl; split; congruence. Qed.

Lemma clip_diff (n a b : Z) :
  0 <= n -> a <= b -> clip n b - clip n a <= b - a.
Proof.
  intros Hn Hab. unfold clip.
  destruct (Z.ltb_spec b 0), (Z.ltb_spec a 0); lia.
Qed.

(** A slice between ordered bounds is no longer than their distance. *)
Lemma slice_len (s : str) (a b : Z) : a <= b -> len (slice s a b) <= b - a.
Proof.
  intros Hab. unfold slice.
  pose proof (clip_diff (len s) a b (len_nonneg s) Hab) as Hd.
  unfold len in *. rewrite length_take. lia.
Qed.

Lemma slice_same (s : str) (a : Z) : slice s a a = [].
Proof. unfold slice. now rewrite Z.sub_diag. Qed.

(** A valid non-negative index never raises. *)
Lemma index_in_range (s : str) (i : Z) :
  0 <= i < len s -> exists c, index s i = Some c.
Proof.
  intros Hi. unfold index.
  replace ((0 <=? i) && (i <? len s)) with true
    by (symmetry; apply andb_true_iff; split; [apply Z.leb_le | apply Z.ltb_lt]; lia).
  destruct (nth_error s (Z.to_nat i)) as [c|] eqn:E; [now exists c|].
  apply nth_error_None in E. unfold len in Hi. lia.
Qed.

End PyStrFacts.

(** ** Facts about the chunker *)

Module ChunkerFacts.
Import Py PyStr Chunker PyStrFacts.

Lemma scan_back_bounds (text : str) (n : nat) :
  forall i e, scan_back text i n = Returned (Some e) ->
              i - Z.of_nat n + 2 <= e <= i + 1.
Proof.
  induction n as [|n IH]; intros i e H; simpl in H; [discriminate|].
  destruct (index text i) as [c|]; [|discriminate].
  destruct (is_sentence_end c).
  - injection H as <-. lia.
  - apply IH in H. lia.
Qed.

(** Over valid indices the look-back never raises. *)
Lemma scan_back_total (text : str) (n : nat) :
  forall i, 0 <= i - Z.of_nat n + 1 -> i < len text ->
            exists r, scan_back text i n = Returned r.
Proof.
  induction n as [|n IH]; intros i Hlo Hhi; simpl; [now eexists|].
  destruct (index_in_range text i) as [c ->]; [lia|].
  destruct (is_sentence_end c); [now eexists|].
  apply IH; lia.
Qed.

Lemma lower_bound_shift (start chunk_size : Z) :
  lower_bound start chunk_size (start + chunk_size)
  = start + Z.max (chunk_size / 2) (chunk_size - 100).
Proof. unfold lower_bound. lia. Qed.

(** Where [end] can be: the raw window end, or just after a sentence end
    found inside the look-back range. *)
Lemma find_end_bounds (text : str) (chunk_size start e : Z) :
  find_end text chunk_size start = Returned e ->
  e = start + chunk_size
  \/ (start + Z.max (chunk_size / 2) (chunk_size - 100) + 2 <= e
      /\ e <= start + chunk_size + 1).
Proof.
  unfold find_end. rewrite lower_bound_shift.
  destruct (start + chunk_size <? len text); [|intros [= <-]; now left].
  destruct (scan_back _ _ _) as [[e'|]|] eqn:E; intros [= <-]; [|now left].
  apply scan_back_bounds in E. right. lia.
Qed.

Lemma find_end_advance (text : str) (chunk_size start e : Z) :
  find_end text chunk_size start = Returned e ->
  start + min_advance chunk_size <= e <= start + chunk_size + 1.
Proof.
  intros H. apply find_end_bounds in H. unfold min_advance. lia.
Qed.

Lemma find_end_total (text : str) (chunk_size start : Z) :
  0 < chunk_size -> 0 <= start ->
  exists e, find_end text chunk_size start = Returned e.
Proof.
  intros Hc Hs. unfold find_end. rewrite lower_bound_shift.
  destruct (Z.ltb_spec (start + chunk_size) (len text)) as [Hlt|]; [|now eexists].
  destruct (scan_back_total text
              (Z.to_nat (start + chunk_size
                         - (start + Z.max (chunk_size / 2) (chunk_size - 100))))
              (start + chunk_size)) as [r ->]; [|exact Hlt|].
  - assert (0 <= chunk_size / 2) by (apply Z.div_pos; lia). lia.
  - destruct r; now eexists.
Qed.

(** With a non-positive window the look-back range is empty. *)
Lemma find_end_nonpos (text : str) (chunk_size start : Z) :
  chunk_size <= 0 -> find_end text chunk_size start = Returned (start + chunk_size).
Proof.
  intros Hc. unfold find_end. rewrite lower_bound_shift.
  destruct (start + chunk_size <? len text); [|reflexivity].
  assert (chunk_size <= chunk_size / 2) by (apply Z.div_le_lower_bound; lia).
  replace (Z.to_nat _) with 0%nat by lia. reflexivity.
Qed.

(** A property of every chunk that the loop appends is a property of
    every chunk it returns. *)
Lemma chunk_loop_Forall (P : str -> Prop) (text : str) (chunk_size overlap : Z) :
  (forall start e,
      find_end text chunk_size start = Returned e ->
      strip (slice text start e) <> [] ->
      P (strip (slice text start e))) ->
  forall fuel start chunks result,
    Forall P chunks ->
    chunk_loop fuel text chunk_size overlap start chunks = Some (Returned result) ->
    Forall P result.
Proof.
  intros Hstep. induction fuel as [|fuel IH]; intros start chunks result Hc; simpl.
  - destruct (start <? len text); [discriminate|]. now intros [= <-].
  - destruct (start <? len text); [|now intros [= <-]].
    destruct (find_end text chunk_size start) as [e|x] eqn:E; [|discriminate].
    assert (Hc' : Forall P (append_chunk chunks (strip (slice text start e)))).
    { unfold append_chunk.
      destruct (truthy _) eqn:T; [|exact Hc].
      apply Forall_app. split; [exact Hc|].
      constructor; [|constructor].
      apply Hstep; [exact E | now apply truthy_true]. }
    destruct (_ >=? _); [now intros [= <-]|].
    now apply IH.
Qed.

(** More iterations than needed change nothing. *)
Lemma chunk_loop_fuel_mono (text : str) (chunk_size overlap : Z) :
  forall fuel fuel' start chunks r,
    (fuel <= fuel')%nat ->
    chunk_loop fuel text chunk_size overlap start chunks = Some r ->
    chunk_loop fuel' text chunk_size overlap start chunks = Some r.
Proof.
  induction fuel as [|fuel IH]; intros fuel' start chunks r Hle; simpl.
  - destruct fuel'; simpl; destruct (start <? len text); congruence.
  - destruct fuel' as [|fuel']; [lia|]. simpl.
    destruct (start <? len text); [|congruence].
    destruct (find_end text chunk_size start) as [e|x]; [|congruence].
    destruct (_ >=? _); [congruence|].
    apply IH. lia.
Qed.

(** When every iteration moves [start] forward the loop returns. *)
Lemma chunk_loop_returns (text : str) (chunk_size overlap : Z) :
  0 <= overlap < min_advance chunk_size ->
  forall fuel start chunks,
    0 <= start -> len text - start <= Z.of_nat fuel ->
    exists result,
      chunk_loop fuel text chunk_size overlap start chunks = Some (Returned result).
Proof.
  intros Hov.
  assert (Hcs : 0 < chunk_size) by (unfold min_advance in Hov; lia).
  induction fuel as [|fuel IH]; intros start chunks Hs Hn; simpl.
  - destruct (Z.ltb_spec start (len text)); [lia | now eexists].
  - destruct (Z.ltb_spec start (len text)); [|now eexists].
    destruct (find_end_total text chunk_size start Hcs Hs) as [e E].
    rewrite E. apply find_end_advance in E.
    destruct (_ >=? _); [now eexists|].
    apply IH; lia.
Qed.

Lemma chunk_text_returns (text : str) (chunk_size overlap : Z) :
  0 <= overlap < min_advance chunk_size ->
  exists result,
    chunk_text (Z.to_nat (len text)) text chunk_size overlap = Some (Returned result).
Proof.
  intros Hov. unfold chunk_text.
  destruct (len text <=? chunk_size); [now eexists|].
  apply chunk_loop_returns; [exact Hov | lia |].
  pose proof (len_nonneg text). lia.
Qed.

(** Every chunk the loop appends is trimmed, non-empty and at most one
    character longer than the window. *)
Lemma appended_chunk_len (text : str) (chunk_size start e : Z) :
  0 < chunk_size ->
  find_end text chunk_size start = Returned e ->
  len (strip (slice text start e)) <= chunk_size + 1.
Proof.
  intros Hc E. apply find_end_bounds in E.
  assert (0 <= chunk_size / 2) by (apply Z.div_pos; lia).
  pose proof (strip_len (slice text start e)).
  pose proof (slice_len text start e). lia.
Qed.

Lemma chunk_text_len_bound (fuel : nat) (text : str) (chunk_size overlap : Z)
      (result : list str) :
  0 < chunk_size ->
  chunk_text fuel text chunk_size overlap = Some (Returned result) ->
  Forall (fun c => len c <= chunk_size + 1) result.
Proof.
  intros Hc. unfold chunk_text.
  destruct (Z.leb_spec (len text) chunk_size).
  - intros [= <-]. constructor; [lia | constructor].
  - apply chunk_loop_Forall; [|constructor].
    intros start e E _. now apply appended_chunk_len.
Qed.

End ChunkerFacts.

(** ** The chunker against its specification *)

Module ChunkerSpec.
Import Py PyStr Chunker PyStrFacts ChunkerFacts.

Lemma chunk_loop_unfold (fuel : nat) (text : str) (chunk_size overlap start : Z)
      (chunks : list str) :
  chunk_loop (S fuel) text chunk_size overlap start chunks =
  if start <? len text then
    match find_end text chunk_size start with
    | Raised e => Some (Raised e)
    | Returned end_ =>
        let chunks' := append_chunk chunks (strip (slice text start end_)) in
        if end_ - overlap >=? len text then Some (Returned chunks')
        else chunk_loop fuel text chunk_size overlap (end_ - overlap) chunks'
    end
  else Some (Returned chunks).
Proof. reflexivity. Qed.

(** With the overlap equal to the window, a first window that ends at the
    raw boundary is taken again and again. *)
Lemma stuck_loop (text : str) (chunk_size : Z) :
  0 < len text ->
  find_end text chunk_size 0 = Returned chunk_size ->
  forall fuel chunks, chunk_loop fuel text chunk_size chunk_size 0 chunks = None.
Proof.
  intros Hlen Hend. induction fuel as [|fuel IH]; intros chunks.
  - simpl. apply Z.ltb_lt in Hlen. now rewrite Hlen.
  - rewrite chunk_loop_unfold, Hend. cbv zeta. rewrite Z.sub_diag.
    replace (0 <? len text) with true by (symmetry; now apply Z.ltb_lt).
    replace (0 >=? len text) with false
      by (symmetry; rewrite Z.geb_leb; now apply Z.leb_gt).
    apply IH.
Qed.

(** C2, at the inputs [chunk_text("aaaa", chunk_size=2, overlap=2)] and
    [chunk_text("a" * 201, chunk_size=200)] (overlap at its default, 200):
    the overlap is not clamped, every iteration takes the window that
    starts at 0 and sets [start] back to 0, so no number of iterations is
    enough for the call to come back. *)
Theorem chunk_text_overlap_not_clamped :
  forall fuel,
    chunk_text fuel (lit "aaaa") 2 2 = None
    /\ chunk_text fuel long_text 200 200 = None.
Proof.
  intros fuel. split.
  - apply (stuck_loop (lit "aaaa") 2); reflexivity.
  - apply (stuck_loop long_text 200); vm_compute; reflexivity.
Qed.

(** C5 as stated fails on the empty string: the early return hands the
    text back as the only chunk, so the sequence is not empty and its
    chunk is empty after trimming. *)
Lemma empty_text_gives_empty_chunk :
  chunk_text 0 (lit "") 10 2 = Some (Returned [lit ""])
  /\ ~ Forall (fun c => strip c <> []) [lit ""].
Proof.
  split; [reflexivity|].
  intros H. inversion H as [|? ? Hc _]. now apply Hc.
Qed.

(** C5, amended: for [chunk_size > 0], a text no longer than the window
    comes back unchanged as the only chunk; for a longer text every
    returned chunk is trimmed and non-empty; and the call does return
    whenever the overlap is non-negative and below the least advance of
    the window. *)
Theorem chunks_trimmed_and_nonempty (text : str) (chunk_size overlap : Z) :
  0 < chunk_size ->
  (forall fuel result,
      chunk_text fuel text chunk_size overlap = Some (Returned result) ->
      (len text <= chunk_size /\ result = [text])
      \/ (chunk_size < len text
          /\ Forall (fun c => strip c = c /\ strip c <> []) result))
  /\ (0 <= overlap < min_advance chunk_size ->
      exists result,
        chunk_text (Z.to_nat (len text)) text chunk_size overlap
        = Some (Returned result)).
Proof.
  intros _. split; [|apply chunk_text_returns].
  intros fuel result. unfold chunk_text.
  destruct (Z.leb_spec (len text) chunk_size) as [Hle|Hlt].
  - intros [= <-]. now left.
  - intros H. right. split; [exact Hlt|].
    revert H. apply chunk_loop_Forall; [|constructor].
    intros start e _ Hne. rewrite strip_idem. now split.
Qed.

Lemma chunks_trimmed_and_nonempty_witness :
  0 < 12
  /\ ((forall fuel result,
          chunk_text fuel sample_text 12 3 = Some (Returned result) ->
          (len sample_text <= 12 /\ result = [sample_text])
          \/ (12 < len sample_text
              /\ Forall (fun c => strip c = c /\ strip c <> []) result))
      /\ (0 <= 3 < min_advance 12 ->
          exists result,
            chunk_text (Z.to_nat (len sample_text)) sample_text 12 3
            = Some (Returned result))).
Proof.
  split; [lia | apply (chunks_trimmed_and_nonempty sample_text 12 3); lia].
Defined.

(** C6 as stated fails: [chunk_text("", chunk_size=0)] returns the list
    holding the empty text, it raises nothing. *)
Lemma zero_chunk_size_accepted :
  chunk_text 0 (lit "") 0 200 = Some (Returned [lit ""])
  /\ (forall message,
       chunk_text 0 (lit "") 0 200 <> Some (Raised (Exn "InvalidConfig" message))).
Proof. split; [reflexivity | discriminate]. Qed.

Lemma chunk_loop_nonpos_no_raise (text : str) (chunk_size overlap : Z) :
  chunk_size <= 0 ->
  forall fuel start chunks e,
    chunk_loop fuel text chunk_size overlap start chunks <> Some (Raised e).
Proof.
  intros Hc. induction fuel as [|fuel IH]; intros start chunks e; simpl.
  - destruct (start <? len text); discriminate.
  - destruct (start <? len text); [|discriminate].
    rewrite find_end_nonpos by exact Hc.
    destruct (_ >=? _); [discriminate | apply IH].
Qed.

Lemma chunk_loop_nonpos_returns (text : str) (chunk_size overlap : Z) :
  chunk_size <= 0 -> overlap < chunk_size ->
  forall fuel start chunks,
    len text - start <= Z.of_nat fuel ->
    exists result,
      chunk_loop fuel text chunk_size overlap start chunks = Some (Returned result).
Proof.
  intros Hc Hov. induction fuel as [|fuel IH]; intros start chunks Hn; simpl.
  - destruct (Z.ltb_spec start (len text)); [lia | now eexists].
  - destruct (Z.ltb_spec start (len text)); [|now eexists].
    rewrite find_end_nonpos by exact Hc.
    destruct (_ >=? _); [now eexists|].
    apply IH. lia.
Qed.

(** C6, amended: a [chunk_size <= 0] is not rejected.  The call raises
    nothing; it returns [[text]] when [len(text) <= chunk_size], and it
    returns some sequence of chunks when the text is empty or
    [overlap < chunk_size]. *)
Theorem nonpositive_chunk_size_not_rejected (text : str) (chunk_size overlap : Z) :
  chunk_size <= 0 ->
  (forall fuel e, chunk_text fuel text chunk_size overlap <> Some (Raised e))
  /\ (len text <= chunk_size ->
      forall fuel, chunk_text fuel text chunk_size overlap = Some (Returned [text]))
  /\ (text = [] \/ overlap < chunk_size ->
      exists result,
        chunk_text (Z.to_nat (len text)) text chunk_size overlap
        = Some (Returned result)).
Proof.
  intros Hc. unfold chunk_text. repeat split.
  - intros fuel e. destruct (len text <=? chunk_size); [discriminate|].
    now apply chunk_loop_nonpos_no_raise.
  - intros Hle fuel. apply Z.leb_le in Hle. now rewrite Hle.
  - intros [-> | Hov].
    + destruct (len [] <=? chunk_size); now eexists.
    + destruct (len text <=? chunk_size); [now eexists|].
      apply chunk_loop_nonpos_returns; [exact Hc | exact Hov |].
      pose proof (len_nonneg text). lia.
Qed.

Lemma nonpositive_chunk_size_not_rejected_witness :
  -1 <= 0
  /\ ((forall fuel e, chunk_text fuel (lit "abc") (-1) (-2) <> Some (Raised e))
      /\ (len (lit "abc") <= -1 ->
          forall fuel, chunk_text fuel (lit "abc") (-1) (-2)
                       = Some (Returned [lit "abc"]))
      /\ (lit "abc" = [] \/ -2 < -1 ->
          exists result,
            chunk_text (Z.to_nat (len (lit "abc"))) (lit "abc") (-1) (-2)
            = Some (Returned result))).
Proof.
  split; [lia | apply (nonpositive_chunk_size_not_rejected (lit "abc") (-1) (-2)); lia].
Defined.

(** C7: for [chunk_size = S > 0] every returned chunk is at most [S + 100]
    characters long (in fact at most [S + 1]: the cut is moved back to a
    sentence end, or one character forward when the character at the
    window end is one); and the call does return whenever the overlap is
    non-negative and below the least advance of the window. *)
Theorem chunk_length_bound (text : str) (S overlap : Z) :
  0 < S ->
  (forall fuel result,
      chunk_text fuel text S overlap = Some (Returned result) ->
      Forall (fun c => len c <= S + 1 /\ len c <= S + 100) result)
  /\ (0 <= overlap < min_advance S ->
      exists result,
        chunk_text (Z.to_nat (len text)) text S overlap = Some (Returned result)).
Proof.
  intros HS. split; [|apply chunk_text_returns].
  intros fuel result H.
  apply (chunk_text_len_bound _ _ _ _ _ HS) in H.
  eapply Forall_impl; [exact H|]. simpl. intros c Hc. lia.
Qed.

Lemma chunk_length_bound_witness :
  0 < 12
  /\ ((forall fuel result,
          chunk_text fuel sample_text 12 3 = Some (Returned result) ->
          Forall (fun c => len c <= 12 + 1 /\ len c <= 12 + 100) result)
      /\ (0 <= 3 < min_advance 12 ->
          exists result,
            chunk_text (Z.to_nat (len sample_text)) sample_text 12 3
            = Some (Returned result))).
Proof.
  split; [lia | apply (chunk_length_bound sample_text 12 3); lia].
Defined.

End ChunkerSpec.

(** ** The context loop against its specification *)

Module AssemblerSpec.
Import PyStr PyStrFacts Assembler.

Lemma total_len_app (xs ys : list str) :
  total_len (xs ++ ys) = total_len xs + total_len ys.
Proof.
  induction xs as [|x xs IH]; simpl; [reflexivity|].
  rewrite IH. lia.
Qed.

Lemma total_len_nonneg (xs : list str) : 0 <= total_len xs.
Proof.
  induction xs as [|x xs IH]; simpl; [lia|].
  pose proof (len_nonneg x). lia.
Qed.

(** The loop from any state: it keeps what it has, adds the formatted
    chunks of a prefix, counts their lengths, and the chunk after the prefix,
    when there is one, is the one that did not fit. *)
Lemma context_loop_prefix (max_context_length : Z) (docs : list Doc) :
  forall (parts : list str) (cur : Z),
  exists n : nat,
    (n <= List.length docs)%nat
    /\ fst (context_loop docs max_context_length parts cur)
       = parts ++ map format_doc (take n docs)
    /\ snd (context_loop docs max_context_length parts cur)
       = cur + total_len (map format_doc (take n docs))
    /\ (forall doc : Doc,
           docs !! n = Some doc ->
           cur + total_len (map format_doc (take n docs)) + len (format_doc doc)
           > max_context_length)
    /\ (cur <= max_context_length ->
        snd (context_loop docs max_context_length parts cur) <= max_context_length).
Proof.
  induction docs as [|doc rest IH]; intros parts cur; simpl.
  - exists 0%nat. simpl. rewrite app_nil_r.
    repeat split; [lia | lia | discriminate | lia].
  - destruct (Z.gtb_spec (cur + len (format_doc doc)) max_context_length) as [Hgt|Hle].
    + exists 0%nat. simpl. rewrite app_nil_r.
      repeat split; [lia | lia | | lia].
      intros d [= <-]. lia.
    + destruct (IH (parts ++ [format_doc doc]) (cur + len (format_doc doc)))
        as (n & Hn & Hfst & Hsnd & Hnext & Hfit).
      exists (S n). simpl.
      repeat split.
      * lia.
      * rewrite Hfst, <- app_assoc. reflexivity.
      * rewrite Hsnd. lia.
      * intros d Hd. specialize (Hnext d Hd). lia.
      * intros _. apply Hfit. lia.
Qed.

(** C9 as stated fails in two places: a chunk whose URL is empty is
    formatted without the parenthesised URL, and under a negative budget
    the empty selection, of total length 0, is above the budget. *)
Lemma context_format_and_budget_differ :
  build_context_parts [doc_without_url] 4000 = [format_doc doc_without_url]
  /\ format_doc doc_without_url <> spec_format_doc doc_without_url
  /\ build_context_parts [doc_with_url] (-1) = []
  /\ total_len (build_context_parts [doc_with_url] (-1)) > -1.
Proof.
  repeat split; try reflexivity.
  vm_compute. discriminate.
Qed.

(** C9, amended: the parts are the formatted chunks of a prefix of the
    documents, in order, each formatted by [format_doc] ("Source: {title}",
    then " ({url})" only for a non-empty URL, then
    "\nContent: {content}\n"); the chunk after the prefix, when there is
    one, is the first whose formatted text takes the accumulated length
    above the budget; and under a non-negative budget the total formatted
    length of the parts is within it. *)
Theorem context_is_fitting_prefix (docs : list Doc) (max_context_length : Z) :
  exists n : nat,
    (n <= List.length docs)%nat
    /\ build_context_parts docs max_context_length = map format_doc (take n docs)
    /\ (forall doc : Doc,
           docs !! n = Some doc ->
           total_len (map format_doc (take n docs)) + len (format_doc doc)
           > max_context_length)
    /\ (0 <= max_context_length ->
        total_len (build_context_parts docs max_context_length)
        <= max_context_length).
Proof.
  unfold build_context_parts.
  destruct (context_loop_prefix max_context_length docs [] 0)
    as (n & Hn & Hfst & Hsnd & Hnext & Hfit).
  exists n. rewrite Hfst. simpl.
  repeat split; [exact Hn | exact Hnext |].
  intros Hmax. specialize (Hfit Hmax). rewrite Hsnd in Hfit. lia.
Qed.

End AssemblerSpec.

(** ** Facts about rounding *)

Module FpFacts.
Import Fp.
Local Open Scope Q_scope.

Lemma Qltb_lt (x y : Q) : Qltb x y = true <-> x < y.
Proof.
  unfold Qltb. rewrite negb_true_iff. split.
  - intros H. apply Qnot_le_lt. intros Hle.
    apply Qle_bool_iff in Hle. congruence.
  - intros H. destruct (Qle_bool y x) eqn:E; [|reflexivity].
    apply Qle_bool_iff in E. exfalso. exact (Qlt_not_le _ _ H E).
Qed.

Lemma Qltb_ge (x y : Q) : Qltb x y = false <-> y <= x.
Proof.
  unfold Qltb. rewrite negb_false_iff. apply Qle_bool_iff.
Qed.

Lemma Qle_bool_false (x y : Q) : Qle_bool x y = false <-> y < x.
Proof.
  rewrite <- Qltb_lt. unfold Qltb. now rewrite negb_true_iff.
Qed.

Lemma two_pow_pos (e : Z) : 0 < 2 ^ e.
Proof. apply Qpower_0_lt. reflexivity. Qed.

Lemma two_pow_le (a b : Z) : (a <= b)%Z -> 2 ^ a <= 2 ^ b.
Proof. intros H. apply Qpower_le_compat_l; [exact H | discriminate]. Qed.

Lemma two_pow_add (a b : Z) : 2 ^ (a + b) == 2 ^ a * 2 ^ b.
Proof. apply Qpower_plus. discriminate. Qed.

(** *** Agreement with the Standard Library's IEEE 754 operations at
    sample points *)

Example add_agrees_below_one_ulp :
  fp_add binary32 (of_spec_float (S754_finite false 8388608 (-23)))
          (of_spec_float (S754_finite false 8388609 (-53)))
  = of_spec_float (SFadd 24 128 (S754_finite false 8388608 (-23))
                                (S754_finite false 8388609 (-53))).
Proof. vm_compute. reflexivity. Qed.

Example add_agrees_mixed_signs :
  fp_add binary32 (of_spec_float (S754_finite false 12345679 (-20)))
          (of_spec_float (S754_finite true 9999999 (-3)))
  = of_spec_float (SFadd 24 128 (S754_finite false 12345679 (-20))
                                (S754_finite true 9999999 (-3))).
Proof. vm_compute. reflexivity. Qed.

Example add_agrees_at_overflow :
  fp_add binary32 (of_spec_float (S754_finite false 16777215 104))
          (of_spec_float (S754_finite false 16777215 104))
  = of_spec_float (SFadd 24 128 (S754_finite false 16777215 104)
                                (S754_finite false 16777215 104)).
Proof. vm_compute. reflexivity. Qed.

Example mul_agrees_at_underflow :
  fp_mul binary32 (of_spec_float (S754_finite false 3 (-149)))
          (of_spec_float (S754_finite false 12582912 (-24)))
  = of_spec_float (SFmul 24 128 (S754_finite false 3 (-149))
                                (S754_finite false 12582912 (-24))).
Proof. vm_compute. reflexivity. Qed.

Example mul_agrees_on_normals :
  fp_mul binary32 (of_spec_float (S754_finite false 12345679 (-20)))
          (of_spec_float (S754_finite true 9999999 (-3)))
  = of_spec_float (SFmul 24 128 (S754_finite false 12345679 (-20))
                                (S754_finite true 9999999 (-3))).
Proof. vm_compute. reflexivity. Qed.

Example div_agrees_on_normals :
  fp_div binary32 (of_spec_float (S754_finite false 8388608 (-23)))
          (of_spec_float (S754_finite false 12345679 (-20)))
  = of_spec_float (SFdiv 24 128 (S754_finite false 8388608 (-23))
                                (S754_finite false 12345679 (-20))).
Proof. vm_compute. reflexivity. Qed.

Example div_agrees_on_subnormal_result :
  fp_div binary32 (of_spec_float (S754_finite false 8388608 (-23)))
          (of_spec_float (S754_finite false 16777215 104))
  = of_spec_float (SFdiv 24 128 (S754_finite false 8388608 (-23))
                                (S754_finite false 16777215 104)).
Proof. vm_compute. reflexivity. Qed.

Example add_agrees_in_double :
  fp_add binary64 (of_spec_float (S754_finite false 4503599627370496 (-52)))
                  (of_spec_float (S754_finite false 4503599627370497 (-112)))
  = of_spec_float (SFadd 53 1024 (S754_finite false 4503599627370496 (-52))
                                 (S754_finite false 4503599627370497 (-112))).
Proof. vm_compute. reflexivity. Qed.

Example div_agrees_in_double :
  fp_div binary64 (of_spec_float (S754_finite false 4503599627370496 (-52)))
                  (of_spec_float (S754_finite false 6004799503160661 (-50)))
  = of_spec_float (SFdiv 53 1024 (S754_finite false 4503599627370496 (-52))
                                 (S754_finite false 6004799503160661 (-50))).
Proof. vm_compute. reflexivity. Qed.

(** *** Rounding to an integer *)

Lemma rne_bounds (x : Q) : (Qfloor x <= rne x <= Qfloor x + 1)%Z.
Proof.
  unfold rne.
  destruct (Qcompare _ _); [destruct (Z.even _)| |]; lia.
Qed.

Lemma rne_Z (z : Z) : rne (inject_Z z) = z.
Proof.
  unfold rne. rewrite Qfloor_Z.
  destruct (Qcompare_spec (inject_Z z - inject_Z z) (1 # 2)) as [H|H|H].
  - exfalso. lra.
  - reflexivity.
  - exfalso. lra.
Qed.

Lemma rne_mono (x y : Q) : x <= y -> (rne x <= rne y)%Z.
Proof.
  intros Hxy.
  pose proof (Qfloor_resp_le x y Hxy) as Hf.
  destruct (Z.eq_dec (Qfloor x) (Qfloor y)) as [E|N].
  - unfold rne. rewrite <- E.
    destruct (Qcompare_spec (x - inject_Z (Qfloor x)) (1 # 2)) as [Hx|Hx|Hx];
      destruct (Qcompare_spec (y - inject_Z (Qfloor x)) (1 # 2)) as [Hy|Hy|Hy];
      destruct (Z.even (Qfloor x)); try lia; exfalso; lra.
  - pose proof (rne_bounds x). pose proof (rne_bounds y). lia.
Qed.

(** *** The exponent search *)

Lemma find_exp_ge (p : Z) (n : nat) : forall e x, (e <= find_exp p n e x)%Z.
Proof.
  induction n as [|n IH]; intros e x; simpl; [lia|].
  destruct (Qltb x _); [lia|]. specialize (IH (e + 1)%Z x). lia.
Qed.

Lemma find_exp_le (p : Z) (n : nat) :
  forall e x, (find_exp p n e x <= e + Z.of_nat n)%Z.
Proof.
  induction n as [|n IH]; intros e x; simpl find_exp; [lia|].
  destruct (Qltb x _); [lia|]. specialize (IH (e + 1)%Z x). lia.
Qed.

Lemma find_exp_mono (p : Z) (n : nat) :
  forall e x y, x <= y -> (find_exp p n e x <= find_exp p n e y)%Z.
Proof.
  induction n as [|n IH]; intros e x y Hxy; simpl; [lia|].
  destruct (Qltb x (2 ^ (e + p))) eqn:Ex.
  - destruct (Qltb y _); [lia|].
    pose proof (find_exp_ge p n (e + 1)%Z y). lia.
  - apply Qltb_ge in Ex.
    assert (Ey : Qltb y (2 ^ (e + p)) = false).
    { apply Qltb_ge. now apply Qle_trans with x. }
    rewrite Ey. now apply IH.
Qed.

Lemma find_exp_lower (p : Z) (n : nat) :
  forall e x, (e < find_exp p n e x)%Z -> 2 ^ (find_exp p n e x + p - 1) <= x.
Proof.
  induction n as [|n IH]; intros e x; simpl; [lia|].
  destruct (Qltb x (2 ^ (e + p))) eqn:Ex; [lia|].
  intros _. apply Qltb_ge in Ex.
  pose proof (find_exp_ge p n (e + 1)%Z x) as Hge.
  destruct (Z.eq_dec (find_exp p n (e + 1)%Z x) (e + 1)%Z) as [E|N].
  - rewrite E. replace (e + 1 + p - 1)%Z with (e + p)%Z by lia. exact Ex.
  - apply IH. lia.
Qed.

Lemma find_exp_upper (p : Z) (n : nat) :
  forall e x, (find_exp p n e x < e + Z.of_nat n)%Z ->
              x < 2 ^ (find_exp p n e x + p).
Proof.
  induction n as [|n IH]; intros e x; simpl find_exp; [lia|].
  destruct (Qltb x (2 ^ (e + p))) eqn:Ex.
  - intros _. now apply Qltb_lt.
  - intros H. apply IH. lia.
Qed.

Lemma find_exp_ext (p : Z) (n : nat) (e : Z) (x y : Q) :
  x == y -> find_exp p n e x = find_exp p n e y.
Proof.
  intros H. apply Z.le_antisymm; apply find_exp_mono; rewrite H; apply Qle_refl.
Qed.

Section Format.

Variable fmt : format.

Lemma cexp_nonneg (x : Q) :
  0 <= x -> cexp fmt x = find_exp (prec fmt) (exponents fmt) (emin fmt) x.
Proof. intros Hx. apply find_exp_ext. now apply Qabs_pos. Qed.

Lemma cexp_mono (x y : Q) : 0 <= x -> x <= y -> (cexp fmt x <= cexp fmt y)%Z.
Proof.
  intros Hx Hxy.
  rewrite !cexp_nonneg by (try exact Hx; now apply Qle_trans with x).
  now apply find_exp_mono.
Qed.

Lemma cexp_lower (x : Q) :
  0 <= x -> (emin fmt < cexp fmt x)%Z -> 2 ^ (cexp fmt x + prec fmt - 1) <= x.
Proof.
  intros Hx. rewrite cexp_nonneg by exact Hx. apply find_exp_lower.
Qed.

Lemma cexp_upper (x : Q) :
  0 <= x -> (cexp fmt x < emin fmt + Z.of_nat (exponents fmt))%Z ->
  x < 2 ^ (cexp fmt x + prec fmt).
Proof.
  intros Hx. rewrite cexp_nonneg by exact Hx. apply find_exp_upper.
Qed.

Lemma cexp_le (x : Q) : (cexp fmt x <= emin fmt + Z.of_nat (exponents fmt))%Z.
Proof. unfold cexp. apply find_exp_le. Qed.

Lemma cexp_ge (x : Q) : (emin fmt <= cexp fmt x)%Z.
Proof. unfold cexp. apply find_exp_ge. Qed.

(** *** Rounding is monotone on the non-negative rationals *)

Lemma div_le_pos (x y p : Q) : 0 < p -> x <= y -> x / p <= y / p.
Proof.
  intros Hp Hxy. unfold Qdiv. apply Qmult_le_compat_r; [exact Hxy|].
  apply Qlt_le_weak, Qinv_lt_0_compat, Hp.
Qed.

Lemma div_nonneg (x p : Q) : 0 < p -> 0 <= x -> 0 <= x / p.
Proof.
  intros Hp Hx. apply Qle_shift_div_l; [exact Hp|]. lra.
Qed.

Lemma rne_nonneg (x : Q) : 0 <= x -> (0 <= rne x)%Z.
Proof.
  intros Hx. rewrite <- (rne_Z 0). now apply rne_mono.
Qed.

Lemma round_val_nonneg (x : Q) : 0 <= x -> 0 <= round_val fmt x.
Proof.
  intros Hx. unfold round_val.
  apply Qmult_le_0_compat; [|apply Qlt_le_weak, two_pow_pos].
  change 0 with (inject_Z 0). rewrite <- Zle_Qle.
  apply rne_nonneg, div_nonneg; [apply two_pow_pos | exact Hx].
Qed.

Lemma scale_le (a b : Z) (e : Z) :
  (a <= b)%Z -> inject_Z a * 2 ^ e <= inject_Z b * 2 ^ e.
Proof.
  intros H. apply Qmult_le_compat_r; [now rewrite <- Zle_Qle|].
  apply Qlt_le_weak, two_pow_pos.
Qed.

Lemma two_pow_Z (n : Z) : (0 <= n)%Z -> inject_Z (2 ^ n) == 2 ^ n.
Proof. intros Hn. exact (Zpower_Qpower 2 n Hn). Qed.

(** Below the exponent of its successor binade a value rounds to at most
    the binade's upper end. *)
Lemma round_val_upper (x : Q) :
  (0 <= prec fmt)%Z -> 0 <= x ->
  (cexp fmt x < emin fmt + Z.of_nat (exponents fmt))%Z ->
  round_val fmt x <= 2 ^ (cexp fmt x + prec fmt).
Proof.
  intros Hp Hx Hc. pose proof (cexp_upper x Hx Hc) as Hu.
  rewrite Z.add_comm, two_pow_add, <- (two_pow_Z (prec fmt)) by exact Hp.
  unfold round_val. apply scale_le.
  rewrite <- (rne_Z (2 ^ prec fmt)). apply rne_mono.
  apply Qlt_le_weak, Qlt_shift_div_r; [apply two_pow_pos|].
  rewrite two_pow_Z, <- two_pow_add, Z.add_comm by exact Hp. exact Hu.
Qed.

(** Above the least exponent a value rounds to at least the binade's lower
    end. *)
Lemma round_val_lower (y : Q) :
  (1 <= prec fmt)%Z -> 0 <= y -> (emin fmt < cexp fmt y)%Z ->
  2 ^ (cexp fmt y + (prec fmt - 1)) <= round_val fmt y.
Proof.
  intros Hp Hy Hc. pose proof (cexp_lower y Hy Hc) as Hl.
  assert (Hp' : (0 <= prec fmt - 1)%Z) by lia.
  rewrite Z.add_comm, two_pow_add, <- (two_pow_Z (prec fmt - 1)) by exact Hp'.
  unfold round_val. apply scale_le.
  rewrite <- (rne_Z (2 ^ (prec fmt - 1))) at 1. apply rne_mono.
  apply Qle_shift_div_l; [apply two_pow_pos|].
  rewrite two_pow_Z, <- two_pow_add by exact Hp'.
  replace (prec fmt - 1 + cexp fmt y)%Z with (cexp fmt y + prec fmt - 1)%Z by lia.
  exact Hl.
Qed.

Lemma round_val_mono (x y : Q) :
  (1 <= prec fmt)%Z -> 0 <= x -> x <= y -> round_val fmt x <= round_val fmt y.
Proof.
  intros Hp Hx Hxy.
  assert (Hy : 0 <= y) by now apply Qle_trans with x.
  pose proof (cexp_mono x y Hx Hxy) as Hc.
  destruct (Z.eq_dec (cexp fmt x) (cexp fmt y)) as [E|N].
  - unfold round_val. rewrite E. apply scale_le, rne_mono.
    apply div_le_pos; [apply two_pow_pos | exact Hxy].
  - pose proof (cexp_le y) as Hmax.
    pose proof (cexp_ge x) as Hmin.
    apply Qle_trans with (2 ^ (cexp fmt x + prec fmt)).
    + apply round_val_upper; [lia | exact Hx | lia].
    + apply Qle_trans with (2 ^ (cexp fmt y + (prec fmt - 1))).
      * apply two_pow_le. lia.
      * apply round_val_lower; [exact Hp | exact Hy | lia].
Qed.

(** The two shapes of a rounded non-negative rational. *)
Lemma round_nonneg_cases (x : Q) :
  0 <= x ->
  (round fmt x = Finite (Qred (round_val fmt x))
   /\ round_val fmt x < 2 ^ emax fmt)
  \/ (round fmt x = Inf false /\ 2 ^ emax fmt <= round_val fmt x).
Proof.
  intros Hx. pose proof (round_val_nonneg x Hx) as Hv.
  unfold round.
  assert (Hs : Qltb x 0 = false) by now apply Qltb_ge.
  destruct (Qle_bool (2 ^ emax fmt) (Qabs (round_val fmt x))) eqn:E.
  - right. rewrite Hs. split; [reflexivity|].
    apply Qle_bool_iff in E. now rewrite Qabs_pos in E.
  - left. split; [reflexivity|].
    apply Qle_bool_false in E. now rewrite Qabs_pos in E.
Qed.

Lemma round_mono (x y : Q) :
  (1 <= prec fmt)%Z -> 0 <= x -> x <= y ->
  fp_leb (round fmt x) (round fmt y) = true.
Proof.
  intros Hp Hx Hxy.
  assert (Hy : 0 <= y) by now apply Qle_trans with x.
  pose proof (round_val_mono x y Hp Hx Hxy) as Hm.
  destruct (round_nonneg_cases x Hx) as [[-> Hbx] | [-> Hbx]];
    destruct (round_nonneg_cases y Hy) as [[-> Hby] | [-> Hby]]; simpl.
  - apply Qle_bool_iff. now rewrite !Qred_correct.
  - reflexivity.
  - exfalso. apply (Qlt_irrefl (2 ^ emax fmt)).
    apply Qle_lt_trans with (round_val fmt x); [exact Hbx|].
    now apply Qle_lt_trans with (round_val fmt y).
  - reflexivity.
Qed.

Lemma round_not_negative (x : Q) : 0 <= x -> not_negative (round fmt x).
Proof.
  intros Hx.
  destruct (round_nonneg_cases x Hx) as [[-> _] | [-> _]]; simpl; [|reflexivity].
  rewrite Qred_correct. now apply round_val_nonneg.
Qed.

End Format.

(** After a positive value comes a positive value. *)
Lemma fp_pos_le (a b : fp) :
  fp_ltb zero a = true -> fp_leb a b = true -> fp_ltb zero b = true.
Proof.
  destruct a as [x|[]|], b as [y|[]|]; simpl; intros Ha Hab;
    try discriminate; try reflexivity.
  apply Qltb_lt in Ha. apply Qle_bool_iff in Hab.
  apply Qltb_lt. now apply Qlt_le_trans with x.
Qed.

(** *** The two formats of the score *)

Lemma binary32_carries_scores : carries_scores binary32.
Proof. repeat split; vm_compute; first [reflexivity | discriminate]. Qed.

Lemma binary64_carries_scores : carries_scores binary64.
Proof. repeat split; vm_compute; first [reflexivity | discriminate]. Qed.

End FpFacts.

(** ** Facts about the similarity score *)

Module SimilarityFacts.
Import Fp FpFacts VectorStore.
Local Open Scope Q_scope.

Lemma inv_le_inv (a b : Q) : 0 < a -> a <= b -> 1 / b <= 1 / a.
Proof.
  intros Ha Hab.
  apply Qle_shift_div_l; [exact Ha|].
  assert (E : 1 / b * a == a / b) by (unfold Qdiv; ring).
  rewrite E.
  apply Qle_shift_div_r; [now apply Qlt_le_trans with a | lra].
Qed.

Lemma inv_nonneg (a : Q) : 0 < a -> 0 <= 1 / a.
Proof. intros Ha. apply div_nonneg; [exact Ha | lra]. Qed.

Lemma inv_le_one (a : Q) : 1 <= a -> 1 / a <= 1.
Proof. intros Ha. apply Qle_shift_div_r; lra. Qed.

Section ScoreFormat.

Variable fmt : format.
Hypothesis Hfmt : carries_scores fmt.

Lemma prec_pos : (1 <= prec fmt)%Z.
Proof. apply Hfmt. Qed.

Lemma round_zero : round fmt 0 = Finite 0.
Proof. apply Hfmt. Qed.

Lemma round_one : round fmt 1 = Finite 1.
Proof. apply Hfmt. Qed.

Lemma round_val_one : round_val fmt 1 == 1.
Proof. apply Hfmt. Qed.

(** The two shapes of a score: the sum [1 + d] rounds to a finite [a >= 1]
    and the score is the rounded [1 / a], or the sum overflows and the score
    is 0. *)
Lemma similarity_cases (d : Q) :
  0 <= d ->
  1 <= round_val fmt (1 + d)
  /\ ((round_val fmt (1 + d) < 2 ^ emax fmt
       /\ similarity fmt (Finite d)
          = round fmt (1 / Qred (round_val fmt (1 + d))))
      \/ (2 ^ emax fmt <= round_val fmt (1 + d)
          /\ similarity fmt (Finite d) = Finite 0)).
Proof.
  intros Hd.
  assert (H1 : 1 <= round_val fmt (1 + d)).
  { rewrite <- round_val_one at 1. apply round_val_mono; [apply prec_pos | lra..]. }
  split; [exact H1|].
  unfold similarity, one. simpl fp_add.
  destruct (round_nonneg_cases fmt (1 + d)) as [[-> Hb] | [-> Hb]]; [lra | |].
  - left. split; [exact Hb|]. simpl.
    destruct (Qeq_bool (Qred (round_val fmt (1 + d))) 0) eqn:E; [|reflexivity].
    apply Qeq_bool_iff in E. rewrite Qred_correct in E. lra.
  - right. now split.
Qed.

(** A larger distance never has a larger score. *)
Lemma similarity_antitone (d1 d2 : Q) :
  0 <= d1 -> d1 <= d2 ->
  fp_leb (similarity fmt (Finite d2)) (similarity fmt (Finite d1)) = true.
Proof.
  intros H1 H12.
  assert (H2 : 0 <= d2) by lra.
  assert (Hm : round_val fmt (1 + d1) <= round_val fmt (1 + d2))
    by (apply round_val_mono; [apply prec_pos | lra..]).
  destruct (similarity_cases d1 H1) as [Ha1 [[Hb1 ->] | [Hb1 ->]]];
    destruct (similarity_cases d2 H2) as [Ha2 [[Hb2 ->] | [Hb2 ->]]].
  - apply round_mono; [apply prec_pos | |].
    + apply inv_nonneg. rewrite Qred_correct. lra.
    + apply inv_le_inv; rewrite !Qred_correct; lra.
  - rewrite <- round_zero. apply round_mono; [apply prec_pos | lra |].
    apply inv_nonneg. rewrite Qred_correct. lra.
  - exfalso. lra.
  - reflexivity.
Qed.

Lemma similarity_le_one (d : Q) :
  0 <= d -> fp_leb (similarity fmt (Finite d)) one = true.
Proof.
  intros Hd.
  destruct (similarity_cases d Hd) as [Ha [[Hb ->] | [Hb ->]]]; [|reflexivity].
  unfold one. rewrite <- round_one. apply round_mono; [apply prec_pos | |].
  - apply inv_nonneg. rewrite Qred_correct. lra.
  - apply inv_le_one. now rewrite Qred_correct.
Qed.

(** Up to [FLT_MAX] the score is positive. *)
Lemma similarity_pos (d : Q) :
  0 <= d -> fp_leb (Finite d) flt_max = true ->
  fp_ltb zero (similarity fmt (Finite d)) = true.
Proof.
  intros Hd Hmax.
  change (Qle_bool d (max_finite binary32) = true) in Hmax.
  apply Qle_bool_iff in Hmax.
  destruct Hfmt as (Hp & _ & _ & _ & Hsum & Hinv).
  assert (Hm : round_val fmt (1 + d) <= round_val fmt (1 + max_finite binary32))
    by (apply round_val_mono; [exact Hp | lra..]).
  destruct (similarity_cases d Hd) as [Ha [[Hb ->] | [Hb _]]]; [|exfalso; lra].
  apply fp_pos_le with (1 := Hinv).
  apply round_mono; [exact Hp | |].
  - apply inv_nonneg. lra.
  - apply inv_le_inv; rewrite Qred_correct; lra.
Qed.

End ScoreFormat.

End SimilarityFacts.

(** ** Facts about the index search *)

Module SearchFacts.
Import Py PyStr Fp FpFacts Faiss VectorStore SimilarityFacts.

(** [FLT_MAX] as a rational. *)
Lemma flt_max_val : flt_max = Finite 340282346638528859811704183484516925440.
Proof. reflexivity. Qed.

Lemma square_not_negative (t : fp) : not_negative (fp_mul binary32 t t).
Proof.
  destruct t as [x|s|]; simpl; [| now destruct s | exact I].
  apply round_not_negative.
  destruct (Qlt_le_dec x 0) as [Hneg|Hpos].
  - setoid_replace (x * x)%Q with ((- x) * (- x))%Q using relation Qeq by ring.
    apply Qmult_le_0_compat; lra.
  - now apply Qmult_le_0_compat.
Qed.

Lemma add_not_negative (a b : fp) :
  not_negative a -> not_negative b -> not_negative (fp_add binary32 a b).
Proof.
  destruct a as [x|s|], b as [y|t|]; simpl; intros Ha Hb; subst; try exact I;
    try reflexivity.
  apply round_not_negative. lra.
Qed.

Lemma fvec_L2sqr_from_not_negative (x : vec) :
  forall (y : vec) (acc : fp),
    not_negative acc -> not_negative (fvec_L2sqr_from acc x y).
Proof.
  induction x as [|a x IH]; intros [|b y] acc Hacc; simpl; try exact Hacc.
  apply IH, add_not_negative; [exact Hacc | apply square_not_negative].
Qed.

Lemma fvec_L2sqr_not_negative (x y : vec) : not_negative (fvec_L2sqr x y).
Proof.
  apply fvec_L2sqr_from_not_negative. simpl. apply Qle_refl.
Qed.

(** A distance that is not negative and below [FLT_MAX] is a finite
    rational between 0 and [FLT_MAX]. *)
Lemma below_max_finite (a : fp) :
  not_negative a -> fp_ltb a flt_max = true ->
  exists q : Q, a = Finite q /\ (0 <= q)%Q /\ fp_leb (Finite q) flt_max = true.
Proof.
  rewrite flt_max_val.
  destruct a as [q|s|]; simpl; intros Ha Hlt.
  - exists q. repeat split; [exact Ha|].
    apply Qle_bool_iff, Qlt_le_weak. now apply Qltb_lt.
  - subst s. discriminate.
  - discriminate.
Qed.

Lemma In_insert_hit (h x : hit) (l : list hit) :
  In h (insert_hit x l) -> h = x \/ In h l.
Proof.
  induction l as [|y l IH]; simpl.
  - intros [<- | []]. now left.
  - destruct (fp_ltb _ _); simpl; intros [<- | H]; auto.
    destruct (IH H); auto.
Qed.

Lemma In_fold_insert (h : hit) (l : list hit) :
  forall acc, In h (fold_left (fun acc x => insert_hit x acc) l acc) ->
              In h acc \/ In h l.
Proof.
  induction l as [|x l IH]; simpl; intros acc H; [now left|].
  destruct (IH _ H) as [H1 | H1]; [|auto].
  destruct (In_insert_hit _ _ _ H1); auto.
Qed.

Lemma In_sort_hits (h : hit) (l : list hit) : In h (sort_hits l) -> In h l.
Proof.
  intros H. destruct (In_fold_insert h l [] H) as [[] | H1]. exact H1.
Qed.

Lemma In_take (h : hit) (k : nat) : forall l, In h (take k l) -> In h l.
Proof.
  induction k as [|k IH]; intros [|x l]; simpl; try tauto.
  intros [<- | H]; auto.
Qed.

Lemma In_distances_from (q : vec) (vectors : list vec) :
  forall (i : Z) (dist : fp) (idx : Z),
    In (dist, idx) (distances_from i q vectors) ->
    exists v, (i <= idx)%Z
              /\ nth_error vectors (Z.to_nat (idx - i)) = Some v
              /\ dist = fvec_L2sqr q v.
Proof.
  induction vectors as [|v rest IH]; intros i dist idx; simpl; [tauto|].
  intros [[= <- <-] | H].
  - exists v. rewrite Z.sub_diag. repeat split; [lia..|reflexivity].
  - destruct (IH _ _ _ H) as (v' & Hi & Hn & Hd).
    exists v'. repeat split; [lia | | exact Hd].
    replace (Z.to_nat (idx - i)) with (S (Z.to_nat (idx - (i + 1)))) by lia.
    exact Hn.
Qed.

(** An entry of a [knn] result is a filler, or the distance of a stored
    vector that is below [FLT_MAX]. *)
Lemma In_knn (index0 : IndexFlatL2) (q : vec) (k : nat) (dist : fp) (idx : Z) :
  In (dist, idx) (knn index0 q k) ->
  (dist = flt_max /\ idx = (-1)%Z)
  \/ (exists v, (0 <= idx)%Z
                /\ nth_error (xb index0) (Z.to_nat idx) = Some v
                /\ dist = fvec_L2sqr q v
                /\ fp_ltb dist flt_max = true).
Proof.
  unfold knn. intros H. apply in_app_or in H as [H | H].
  - right. apply In_take, In_sort_hits, filter_In in H as [H Hlt].
    apply In_distances_from in H as (v & Hi & Hn & Hd).
    exists v. rewrite Z.sub_0_r in Hn. now repeat split.
  - left. apply repeat_spec in H. now injection H.
Qed.

Lemma knn_distance_range (index0 : IndexFlatL2) (q : vec) (k : nat)
      (dist : fp) (idx : Z) :
  In (dist, idx) (knn index0 q k) ->
  exists x : Q, dist = Finite x /\ (0 <= x)%Q /\ fp_leb (Finite x) flt_max = true.
Proof.
  intros H. apply In_knn in H as [[-> _] | (v & _ & _ & -> & Hlt)].
  - rewrite flt_max_val. eexists. split; [reflexivity|].
    split; [discriminate | reflexivity].
  - apply below_max_finite; [apply fvec_L2sqr_not_negative | exact Hlt].
Qed.

Lemma collect_results_In (fmt : format) (docs : list Doc) (hits : list hit) :
  forall acc results doc score,
    collect_results fmt docs hits acc = Returned results ->
    In (doc, score) results ->
    In (doc, score) acc
    \/ exists dist idx, In (dist, idx) hits
                        /\ score = similarity fmt dist
                        /\ doc_at docs idx = Returned doc.
Proof.
  induction hits as [|[dist idx] rest IH]; intros acc results doc score; simpl.
  - intros [= <-] H. now left.
  - destruct (idx <? _)%Z.
    + destruct (doc_at docs idx) as [doc0|e] eqn:E; [|discriminate].
      intros Hc Hin.
      destruct (IH _ _ _ _ Hc Hin) as [Hacc | (d' & i' & H1 & H2 & H3)].
      * apply in_app_or in Hacc as [Hacc | [[= <- <-] | []]]; [now left|].
        right. exists dist, idx. auto.
      * right. exists d', i'. auto.
    + intros Hc Hin.
      destruct (IH _ _ _ _ Hc Hin) as [Hacc | (d' & i' & H1 & H2 & H3)].
      * now left.
      * right. exists d', i'. auto.
Qed.

(** Every result of [search] carries the score of an entry that the
    index reported for the first query row. *)
Lemma search_result_origin (fmt : format) (self : store)
      (query_embedding : ndarray) (top_k : Z) (doc : Doc) (score : fp) :
  In (doc, score) (fst (search fmt self query_embedding top_k)) ->
  exists index0 q k dist idx,
    index self = Some index0
    /\ In (dist, idx) (knn index0 q k)
    /\ score = similarity fmt dist
    /\ doc_at (documents self) idx = Returned doc.
Proof.
  unfold search. destruct (index self) as [index0|]; [|intros []].
  destruct (Nat.eqb _ 0); [intros []|].
  destruct (search_body _ _ _ _ _) as [results|e] eqn:E; [|intros []].
  simpl. intros Hin. unfold search_body in E.
  destruct (Faiss.search _ _ _) as [[|hits rows]|e] eqn:S; try discriminate.
  destruct (collect_results_In _ _ _ _ _ _ _ E Hin)
    as [[] | (dist & idx & H1 & H2 & H3)].
  assert (Hk : exists q k, hits = knn index0 q k).
  { unfold Faiss.search in S.
    destruct (match query_embedding with Array1 _ => _ | Array2 _ _ => _ end)
      as [v|ncols qrows]; [discriminate|].
    destruct (negb _); [discriminate|].
    destruct (_ <=? 0)%Z; [discriminate|].
    destruct qrows as [|q qrows]; [discriminate|].
    injection S as <- _. now eexists _, _. }
  destruct Hk as (q & k & ->).
  now exists index0, q, k, dist, idx.
Qed.

End SearchFacts.

(** ** The vector store against its specification *)

Module VectorStoreSpec.
Import Py PyStr Fp FpFacts Faiss VectorStore SimilarityFacts SearchFacts.

(** *** Snapshot and restore *)

(** C1: when the library's [read_index] gives back the index that
    [write_index] wrote, saving a store that has an index and loading the
    saved entry (into the same object or into any other) succeeds and
    leaves a store with the same [get_stats] and the same [search] results
    (and messages) for every query and every [top_k]. *)
Theorem save_then_load_roundtrip
        (index_bytes : Type)
        (write_index : IndexFlatL2 -> index_bytes)
        (read_index : index_bytes -> outcome IndexFlatL2)
        (w : world index_bytes) (target : store) :
  (forall i, read_index (write_index i) = Returned i) ->
  index (self w) <> None ->
  fst (fst (save_then_load index_bytes write_index read_index w target)) = true
  /\ get_stats
       (self (snd (fst (save_then_load index_bytes write_index read_index w target))))
     = get_stats (self w)
  /\ forall score_format query_embedding top_k,
      search score_format
        (self (snd (fst (save_then_load index_bytes write_index read_index w target))))
        query_embedding top_k
      = search score_format (self w) query_embedding top_k.
Proof.
  intros Hrt Hidx.
  unfold save_then_load, save_to_session_state, load_from_session_state.
  destruct w as [[index0 docs dim] entry]. simpl in *.
  destruct index0 as [index0|]; [|congruence].
  simpl. rewrite Hrt. simpl. repeat split.
Qed.

Lemma save_then_load_roundtrip_witness :
  (forall i, id_read (id_write i) = Returned i)
  /\ index two_doc_store <> None
  /\ fst (fst (save_then_load IndexFlatL2 id_write id_read
                 {| self := two_doc_store; session_entry := None |} init)) = true
  /\ get_stats
       (self (snd (fst (save_then_load IndexFlatL2 id_write id_read
                          {| self := two_doc_store; session_entry := None |} init))))
     = get_stats two_doc_store
  /\ forall score_format query_embedding top_k,
      search score_format
        (self (snd (fst (save_then_load IndexFlatL2 id_write id_read
                           {| self := two_doc_store; session_entry := None |} init))))
        query_embedding top_k
      = search score_format two_doc_store query_embedding top_k.
Proof.
  split; [reflexivity|]. split; [discriminate|].
  apply (save_then_load_roundtrip IndexFlatL2 id_write id_read
           {| self := two_doc_store; session_entry := None |} init);
    [reflexivity | discriminate].
Defined.

(** *** Adding documents *)

Lemma add_to_new_index (dim : nat) (rows : list vec) :
  add (new_index dim) (Array2 dim rows) = Returned {| d := dim; xb := rows |}.
Proof. unfold add. simpl. now rewrite Nat.eqb_refl. Qed.

(** C3 as stated fails: two vectors with one document are accepted by an
    unbound store, and the document count goes from 0 to 1. *)
Lemma mismatched_add_succeeds :
  np_len two_vectors = 2%nat
  /\ List.length [doc_sky] = 1%nat
  /\ returned (add_documents init two_vectors [doc_sky]) = true
  /\ num_documents (get_stats init) = 0%nat
  /\ num_documents (get_stats (self_after (add_documents init two_vectors [doc_sky])))
     = 1%nat.
Proof. repeat split. Qed.

(** C3, amended: [add_documents] does not compare the number of vectors
    with the number of documents.  With different numbers the call succeeds
    exactly when the batch is a two-dimensional array that has a row (for an
    unbound store) or the bound number of columns (for a bound one); then
    the documents are stored (all of them, after the ones held by a bound
    store) and the count follows; a call that fails leaves the store as it
    was. *)
Theorem add_documents_no_count_check (self : store) (embeddings : ndarray)
        (docs : list Doc) :
  np_len embeddings <> List.length docs ->
  (returned (add_documents self embeddings docs) = true <->
   match embeddings, index self with
   | Array1 _, _ => False
   | Array2 _ rows, None => rows <> []
   | Array2 ncols _, Some index0 => ncols = d index0
   end)
  /\ (returned (add_documents self embeddings docs) = false ->
      self_after (add_documents self embeddings docs) = self)
  /\ (returned (add_documents self embeddings docs) = true ->
      documents (self_after (add_documents self embeddings docs))
      = match index self with
        | None => docs
        | Some _ => documents self ++ docs
        end
      /\ num_documents (get_stats (self_after (add_documents self embeddings docs)))
         = match index self with
           | None => List.length docs
           | Some _ => (num_documents (get_stats self) + List.length docs)%nat
           end).
Proof.
  intros _. unfold add_documents, create_index.
  destruct self as [[index0|] sdocs sdim]; simpl.
  - destruct embeddings as [v|ncols rows]; simpl.
    + repeat split; try discriminate; tauto.
    + destruct (Nat.eqb_spec ncols (d index0)) as [E|N]; simpl;
        repeat split; intros; try discriminate; try tauto.
      now rewrite length_app.
  - destruct embeddings as [v|ncols rows]; simpl.
    + destruct (Nat.eqb _ 0); simpl; repeat split; try discriminate; tauto.
    + destruct rows as [|r rows]; simpl.
      * repeat split; try discriminate; tauto.
      * rewrite Nat.eqb_refl. simpl. repeat split; try discriminate; tauto.
Qed.

Lemma add_documents_no_count_check_witness :
  np_len two_vectors <> List.length [doc_sky]
  /\ returned (add_documents init two_vectors [doc_sky]) = true
  /\ documents (self_after (add_documents init two_vectors [doc_sky])) = [doc_sky].
Proof.
  split; [discriminate|].
  destruct (add_documents_no_count_check init two_vectors [doc_sky])
    as (Hok & _ & Hdocs); [discriminate|].
  assert (Hret : returned (add_documents init two_vectors [doc_sky]) = true)
    by (apply Hok; discriminate).
  split; [exact Hret | exact (proj1 (Hdocs Hret))].
Defined.

(** C10: an empty batch added to a store without an index is refused
    ([False] is returned) and the store stays as it was: no index, no
    dimension, no documents taken. *)
Theorem empty_batch_on_unbound_store (self : store) (embeddings : ndarray)
        (docs : list Doc) :
  index self = None ->
  np_len embeddings = 0%nat ->
  docs = [] ->
  returned (add_documents self embeddings docs) = false
  /\ self_after (add_documents self embeddings docs) = self
  /\ index (self_after (add_documents self embeddings docs)) = None
  /\ dimension (self_after (add_documents self embeddings docs)) = dimension self
  /\ documents (self_after (add_documents self embeddings docs)) = documents self.
Proof.
  intros Hidx Hlen _. unfold add_documents, create_index.
  rewrite Hidx, Hlen. simpl. now repeat split.
Qed.

Lemma empty_batch_on_unbound_store_witness :
  index init = None
  /\ np_len (Array1 []) = 0%nat
  /\ returned (add_documents init (Array1 []) []) = false
  /\ self_after (add_documents init (Array1 []) []) = init
  /\ index (self_after (add_documents init (Array1 []) [])) = None
  /\ dimension (self_after (add_documents init (Array1 []) [])) = dimension init
  /\ documents (self_after (add_documents init (Array1 []) [])) = documents init.
Proof.
  split; [reflexivity|]. split; [reflexivity|].
  apply (empty_batch_on_unbound_store init (Array1 []) []); reflexivity.
Defined.

(** *** Searching *)

(** C4 as stated fails: on an empty store [search] returns the empty list,
    the value a search that ran without a message also returns when its
    hit has no document. *)
Lemma empty_store_result_not_distinct :
  search binary32 init query_near_sky 5
  = ([], [st_warning (lit "Vector store is empty!")])
  /\ search binary32 mismatched_store query_near_water 1 = ([], [])
  /\ fst (search binary32 init query_near_sky 5)
     = fst (search binary32 mismatched_store query_near_water 1).
Proof. repeat split. Qed.

(** C4, amended: on a store without an index or without documents
    [search] raises nothing: it returns the empty list and shows the warning
    "Vector store is empty!". *)
Theorem search_on_empty_store (score_format : format) (self : store)
        (query_embedding : ndarray) (top_k : Z) :
  index self = None \/ documents self = [] ->
  search score_format self query_embedding top_k
  = ([], [st_warning (lit "Vector store is empty!")]).
Proof.
  unfold search. intros [H | H]; rewrite H; [reflexivity|].
  destruct (index self); reflexivity.
Qed.

Lemma search_on_empty_store_witness :
  (index init = None \/ documents init = [])
  /\ search binary32 init query_near_sky 5
     = ([], [st_warning (lit "Vector store is empty!")]).
Proof.
  split; [now left|].
  apply (search_on_empty_store binary32 init query_near_sky 5). now left.
Defined.

(** C8 as stated fails, in single and in double precision alike: the
    distances 0 and [2 ^ -60] are different and their scores are the same,
    1; a search over two vectors [2 ^ -30] apart returns both with
    score 1. *)
Lemma close_distances_share_a_score :
  fp_ltb (Finite 0) (Finite tiny_distance) = true
  /\ similarity binary32 (Finite 0) = Finite 1
  /\ similarity binary32 (Finite tiny_distance) = Finite 1
  /\ similarity binary64 (Finite 0) = Finite 1
  /\ similarity binary64 (Finite tiny_distance) = Finite 1
  /\ knn {| d := 1; xb := close_vectors |} [Finite 0] 2
     = [(Finite 0, 0%Z); (Finite tiny_distance, 1%Z)]
  /\ search binary32 close_store (Array2 1 [[Finite 0]]) 2
     = ([(doc_sky, Finite 1); (doc_water, Finite 1)], [])
  /\ search binary64 close_store (Array2 1 [[Finite 0]]) 2
     = ([(doc_sky, Finite 1); (doc_water, Finite 1)], []).
Proof. repeat split; vm_compute; reflexivity. Qed.

(** C8, amended: the score is [1 / (1 + distance)] with both operations
    rounded, to single or to double precision.  For distances
    [0 <= d1 < d2 <= FLT_MAX] the score of [d2] is at most the score of
    [d1] (they can be equal).  Every result of [search] carries the score
    of a distance that the index reported, which lies between 0 and
    [FLT_MAX], and the score lies in (0, 1]. *)
Theorem similarity_weakly_decreasing (score_format : format) :
  score_format = binary32 \/ score_format = binary64 ->
  (forall d1 d2 : Q,
      (0 <= d1)%Q -> (d1 < d2)%Q -> fp_leb (Finite d2) flt_max = true ->
      fp_leb (similarity score_format (Finite d2))
             (similarity score_format (Finite d1)) = true)
  /\ (forall (self : store) (query_embedding : ndarray) (top_k : Z)
             (doc : Doc) (score : fp),
         In (doc, score) (fst (search score_format self query_embedding top_k)) ->
         exists (index0 : IndexFlatL2) (q : vec) (k : nat) (dist : Q) (idx : Z),
           index self = Some index0
           /\ In (Finite dist, idx) (knn index0 q k)
           /\ (0 <= dist)%Q
           /\ fp_leb (Finite dist) flt_max = true
           /\ score = fp_div score_format one (fp_add score_format one (Finite dist))
           /\ fp_ltb zero score = true
           /\ fp_leb score one = true).
Proof.
  intros Hfmt.
  assert (Hc : carries_scores score_format).
  { destruct Hfmt as [-> | ->];
      [apply binary32_carries_scores | apply binary64_carries_scores]. }
  split.
  - intros d1 d2 H1 H12 _. apply similarity_antitone; [exact Hc | exact H1 |].
    now apply Qlt_le_weak.
  - intros self query_embedding top_k doc score Hin.
    apply search_result_origin in Hin
      as (index0 & q & k & dist & idx & Hidx & Hknn & -> & _).
    destruct (knn_distance_range _ _ _ _ _ Hknn) as (x & -> & Hx & Hmax).
    exists index0, q, k, x, idx.
    repeat split; try assumption.
    + now apply similarity_pos.
    + now apply similarity_le_one.
Qed.

Lemma similarity_weakly_decreasing_witness :
  (binary32 = binary32 \/ binary32 = binary64)
  /\ fp_leb (similarity binary32 (Finite 1)) (similarity binary32 (Finite 0)) = true
  /\ exists dist : Q,
      (0 <= dist)%Q
      /\ Finite 1 = fp_div binary32 one (fp_add binary32 one (Finite dist))
      /\ fp_ltb zero (Finite 1) = true.
Proof.
  split; [now left|].
  destruct (similarity_weakly_decreasing binary32 (or_introl eq_refl))
    as [Hmono Hsearch].
  split.
  - apply (Hmono 0%Q 1%Q); [discriminate | reflexivity | reflexivity].
  - destruct (Hsearch two_doc_store (Array2 2 [[Finite 1; Finite 0]]) 1%Z
                      doc_sky (Finite 1))
      as (_ & _ & _ & dist & _ & _ & _ & H0 & _ & Hs & Hp & _).
    + vm_compute. left. reflexivity.
    + exists dist. now repeat split.
Defined.

End VectorStoreSpec.

(** ** Further properties of the vector store *)

Module VectorStoreMore.
Import Py PyStr Fp FpFacts Faiss VectorStore SimilarityFacts SearchFacts.
Import StoreInvariants.

(** *** Adding *)

(** Once a first batch has fixed the dimension, a batch of another width is
    refused and nothing changes. *)
Theorem dimension_locked_after_first_add
        (self : store) (ncols ncols' : nat) (rows rows' : list vec)
        (docs docs' : list Doc) :
  index self = None -> rows <> [] -> ncols' <> ncols ->
  returned (add_documents self (Array2 ncols rows) docs) = true
  /\ dimension (self_after (add_documents self (Array2 ncols rows) docs))
     = Some ncols
  /\ returned (add_documents
                 (self_after (add_documents self (Array2 ncols rows) docs))
                 (Array2 ncols' rows') docs') = false
  /\ self_after (add_documents
                   (self_after (add_documents self (Array2 ncols rows) docs))
                   (Array2 ncols' rows') docs')
     = self_after (add_documents self (Array2 ncols rows) docs).
Proof.
  intros Hidx Hrows Hne.
  destruct self as [index0 docs0 dim0]. simpl in Hidx. subst index0.
  destruct rows as [|r rows]; [congruence|].
  unfold add_documents, create_index. simpl.
  rewrite Nat.eqb_refl. simpl.
  destruct (Nat.eqb_spec ncols' ncols) as [E|_]; [congruence|].
  simpl. repeat split.
Qed.

Lemma dimension_locked_after_first_add_witness :
  index init = None
  /\ returned (add_documents two_doc_store (Array2 3 [[Finite 1; Finite 0; Finite 0]])
                             [doc_sky]) = false
  /\ self_after (add_documents two_doc_store
                               (Array2 3 [[Finite 1; Finite 0; Finite 0]]) [doc_sky])
     = two_doc_store.
Proof.
  split; [reflexivity|].
  destruct (dimension_locked_after_first_add init 2 3
              [[Finite 1; Finite 0]; [Finite 0; Finite 1]]
              [[Finite 1; Finite 0; Finite 0]]
              [doc_sky; doc_water] [doc_sky])
    as (_ & _ & Hret & Hsame); [reflexivity | discriminate | discriminate |].
  split; [exact Hret | exact Hsame].
Defined.

(** Both ways of adding keep the fields coherent. *)
Theorem adding_keeps_coherent (self : store) (embeddings : ndarray)
        (docs : list Doc) :
  coherent self ->
  coherent (self_after (create_index self embeddings docs))
  /\ coherent (self_after (add_documents self embeddings docs)).
Proof.
  intros Hc.
  assert (Hcreate : coherent (self_after (create_index self embeddings docs))).
  { unfold create_index.
    destruct (Nat.eqb _ 0); [exact Hc|].
    destruct embeddings as [v|ncols rows]; simpl; [exact Hc|].
    rewrite Nat.eqb_refl. reflexivity. }
  split; [exact Hcreate|].
  unfold add_documents. destruct (index self) as [index0|] eqn:E; [|exact Hcreate].
  destruct embeddings as [v|ncols rows]; simpl; [exact Hc|].
  destruct (Nat.eqb ncols (d index0)); simpl; [|exact Hc].
  unfold coherent in *. rewrite E in Hc. simpl. exact Hc.
Qed.

Lemma adding_keeps_coherent_witness :
  coherent init
  /\ coherent (self_after (create_index init two_vectors [doc_sky; doc_water]))
  /\ coherent (self_after (add_documents init two_vectors [doc_sky; doc_water])).
Proof.
  split; [now split|].
  apply (adding_keeps_coherent init two_vectors [doc_sky; doc_water]). now split.
Defined.

(** Batches with one document for each vector keep the store in lockstep,
    and then the two counts of [get_stats] agree. *)
Theorem matched_adds_keep_lockstep (self : store) (embeddings : ndarray)
        (docs : list Doc) :
  in_lockstep self -> matched_batch embeddings docs ->
  in_lockstep (self_after (add_documents self embeddings docs))
  /\ index_size (get_stats (self_after (add_documents self embeddings docs)))
     = num_documents (get_stats (self_after (add_documents self embeddings docs))).
Proof.
  intros Hl Hm.
  assert (Hstats : forall s, in_lockstep s ->
                             index_size (get_stats s) = num_documents (get_stats s)).
  { intros s. unfold in_lockstep, get_stats. simpl.
    destruct (index s); [tauto | now intros ->]. }
  assert (H : in_lockstep (self_after (add_documents self embeddings docs))).
  { unfold add_documents, create_index, in_lockstep, matched_batch in *.
    destruct (index self) as [index0|] eqn:E.
    - destruct embeddings as [v|ncols rows]; simpl; [now rewrite E|].
      destruct (Nat.eqb ncols (d index0)); simpl; [|now rewrite E].
      unfold ntotal in *. simpl in *. rewrite !length_app. lia.
    - destruct (Nat.eqb _ 0); simpl; [now rewrite E|].
      destruct embeddings as [v|ncols rows]; simpl; [now rewrite E|].
      rewrite Nat.eqb_refl. simpl. exact Hm. }
  split; [exact H | now apply Hstats].
Qed.

Lemma matched_adds_keep_lockstep_witness :
  in_lockstep init /\ matched_batch two_vectors [doc_sky; doc_water]
  /\ in_lockstep (self_after (add_documents init two_vectors [doc_sky; doc_water])).
Proof.
  split; [reflexivity|]. split; [reflexivity|].
  apply (matched_adds_keep_lockstep init two_vectors [doc_sky; doc_water]);
    reflexivity.
Defined.

(** *** Saving, loading and clearing *)

(** [load_from_session_state] succeeds exactly when there is a saved entry
    whose index can be read, and a load that fails leaves the object and
    the session as they were. *)
Theorem failed_load_changes_nothing
        (index_bytes : Type)
        (read_index : index_bytes -> outcome IndexFlatL2)
        (w : world index_bytes) :
  (fst (fst (load_from_session_state index_bytes read_index w)) = true <->
   exists data index0,
     session_entry w = Some data
     /\ read_index (saved_index_bytes index_bytes data) = Returned index0)
  /\ (fst (fst (load_from_session_state index_bytes read_index w)) = false ->
      snd (fst (load_from_session_state index_bytes read_index w)) = w).
Proof.
  unfold load_from_session_state.
  destruct (session_entry w) as [data|] eqn:E.
  - destruct (read_index (saved_index_bytes index_bytes data)) as [index0|e] eqn:R;
      simpl.
    + split; [|discriminate]. split; [|reflexivity].
      intros _. now exists data, index0.
    + split; [|reflexivity]. split; [discriminate|].
      intros (data' & index0 & [= <-] & H). congruence.
  - simpl. split; [|reflexivity]. split; [discriminate|].
    intros (data' & index0 & H & _). discriminate.
Qed.

(** After [clear] the object is empty and the saved entry is gone: a load
    finds nothing and returns [False], a second [clear] changes nothing, and
    a search only warns. *)
Theorem clear_forgets_everything
        (index_bytes : Type)
        (read_index : index_bytes -> outcome IndexFlatL2)
        (w : world index_bytes) :
  self (fst (clear index_bytes w)) = init
  /\ session_entry (fst (clear index_bytes w)) = None
  /\ load_from_session_state index_bytes read_index (fst (clear index_bytes w))
     = (false, fst (clear index_bytes w), [])
  /\ fst (clear index_bytes (fst (clear index_bytes w))) = fst (clear index_bytes w)
  /\ get_stats (self (fst (clear index_bytes w)))
     = {| num_documents := 0; stats_dimension := None;
          has_index := false; index_size := 0 |}
  /\ forall score_format query_embedding top_k,
      search score_format (self (fst (clear index_bytes w))) query_embedding top_k
      = ([], [st_warning (lit "Vector store is empty!")]).
Proof. repeat split. Qed.

(** *** Searching *)

Lemma knn_length (index0 : IndexFlatL2) (q : vec) (k : nat) :
  List.length (knn index0 q k) = k.
Proof.
  unfold knn. rewrite length_app, repeat_length.
  pose proof (firstn_le_length k
    (sort_hits (List.filter (fun h : hit => fp_ltb (fst h) flt_max)
                            (distances_from 0 q (xb index0))))).
  lia.
Qed.

Lemma collect_results_length (fmt : format) (docs : list Doc) (hits : list hit) :
  forall acc results,
    collect_results fmt docs hits acc = Returned results ->
    (List.length results <= List.length acc + List.length hits)%nat.
Proof.
  induction hits as [|[dist idx] rest IH]; intros acc results; simpl.
  - intros [= <-]. lia.
  - destruct (idx <? _)%Z.
    + destruct (doc_at docs idx); [|discriminate].
      intros H. apply IH in H. rewrite length_app in H. simpl in H. lia.
    + intros H. apply IH in H. lia.
Qed.

(** The hits that [search] walks over, when it gets that far. *)
Lemma search_body_hits (fmt : format) (index0 : IndexFlatL2) (docs : list Doc)
      (query_embedding : ndarray) (top_k : Z) (results : list (Doc * fp)) :
  search_body fmt index0 docs query_embedding top_k = Returned results ->
  exists q,
    (0 < Z.min top_k (Z.of_nat (List.length docs)))%Z
    /\ collect_results fmt docs
         (knn index0 q (Z.to_nat (Z.min top_k (Z.of_nat (List.length docs))))) []
       = Returned results.
Proof.
  unfold search_body, Faiss.search.
  destruct (match query_embedding with Array1 _ => _ | Array2 _ _ => _ end)
    as [v|ncols qrows]; [discriminate|].
  destruct (negb _); [discriminate|].
  destruct (Z.leb_spec (Z.min top_k (Z.of_nat (List.length docs))) 0) as [|Hk];
    [discriminate|].
  destruct qrows as [|q qrows]; [discriminate|].
  simpl. intros Hc. exists q. split; [lia | exact Hc].
Qed.

(** [search] returns at most [top_k] results and at most as many as there
    are documents. *)
Theorem search_returns_at_most_top_k (score_format : format) (self : store)
        (query_embedding : ndarray) (top_k : Z) :
  (Z.of_nat (List.length (fst (search score_format self query_embedding top_k)))
   <= Z.max 0 top_k)%Z
  /\ (List.length (fst (search score_format self query_embedding top_k))
      <= List.length (documents self))%nat.
Proof.
  unfold search. destruct (index self) as [index0|]; [|simpl; lia].
  destruct (Nat.eqb _ 0); [simpl; lia|].
  destruct (search_body _ _ _ _ _) as [results|e] eqn:E; [|simpl; lia].
  simpl. apply search_body_hits in E as (q & Hk & E).
  apply collect_results_length in E. rewrite knn_length in E. simpl in E. lia.
Qed.

Lemma doc_at_In (docs : list Doc) (idx : Z) (doc : Doc) :
  doc_at docs idx = Returned doc -> In doc docs.
Proof.
  unfold doc_at. destruct (_ && _); [|discriminate].
  destruct (nth_error _ _) eqn:E; [|discriminate].
  intros [= <-]. now apply nth_error_In in E.
Qed.

(** Every document [search] returns is one of the stored documents. *)
Theorem search_returns_stored_documents (score_format : format) (self : store)
        (query_embedding : ndarray) (top_k : Z) (doc : Doc) (score : fp) :
  In (doc, score) (fst (search score_format self query_embedding top_k)) ->
  In doc (documents self).
Proof.
  intros Hin.
  apply search_result_origin in Hin as (_ & _ & _ & _ & idx & _ & _ & _ & Hdoc).
  now apply doc_at_In in Hdoc.
Qed.

Lemma search_returns_stored_documents_witness :
  In (doc_sky, Finite 1)
     (fst (search binary32 two_doc_store (Array2 2 [[Finite 1; Finite 0]]) 1))
  /\ In doc_sky (documents two_doc_store).
Proof.
  assert (H : In (doc_sky, Finite 1)
                 (fst (search binary32 two_doc_store
                              (Array2 2 [[Finite 1; Finite 0]]) 1)))
    by (vm_compute; left; reflexivity).
  split; [exact H|].
  exact (search_returns_stored_documents binary32 two_doc_store
           (Array2 2 [[Finite 1; Finite 0]]) 1 doc_sky (Finite 1) H).
Defined.

(** A query of the wrong width or without a row, or a [top_k] below 1,
    makes [search] show one error and return the empty list. *)
Theorem search_rejects_bad_query (score_format : format) (self : store)
        (index0 : IndexFlatL2) (query_embedding : ndarray) (top_k : Z) :
  index self = Some index0 -> documents self <> [] ->
  bad_query index0 query_embedding top_k ->
  exists message,
    search score_format self query_embedding top_k = ([], [st_error message]).
Proof.
  intros Hidx Hdocs Hbad. unfold search. rewrite Hidx.
  destruct (documents self) as [|doc0 docs] eqn:D; [congruence|].
  simpl Nat.eqb. cbv iota.
  assert (Hraise : exists e, search_body score_format index0 (doc0 :: docs)
                                         query_embedding top_k = Raised e).
  { unfold search_body, bad_query in *.
    remember (Z.min top_k (Z.of_nat (List.length (doc0 :: docs)))) as k' eqn:Hk'.
    assert (Hkle : (top_k <= 0 -> k' <= 0)%Z) by lia.
    destruct query_embedding as [v|ncols rows]; unfold reshape_row, Faiss.search.
    - destruct (Nat.eqb_spec (List.length v) (d index0)) as [E|N]; cbn [negb];
        [|now eexists].
      destruct (Z.leb_spec k' 0); [now eexists|].
      exfalso. destruct Hbad as [Hk | Hv]; [lia | congruence].
    - destruct (Nat.eqb_spec ncols (d index0)) as [E|N]; cbn [negb]; [|now eexists].
      destruct (Z.leb_spec k' 0); [now eexists|].
      destruct rows as [|q rows]; cbn [map]; [now eexists|].
      exfalso. destruct Hbad as [Hk | [Hn | Hr]]; [lia | congruence | discriminate]. }
  destruct Hraise as [e ->]. now eexists.
Qed.

Lemma search_rejects_bad_query_witness :
  index two_doc_store = Some {| d := 2; xb := [[Finite 1; Finite 0]; [Finite 0; Finite 1]] |}
  /\ documents two_doc_store <> []
  /\ exists message,
      search binary32 two_doc_store (Array1 [Finite 1; Finite 0; Finite 0]) 5
      = ([], [st_error message]).
Proof.
  split; [reflexivity|]. split; [discriminate|].
  apply (search_rejects_bad_query binary32 two_doc_store
           {| d := 2; xb := [[Finite 1; Finite 0]; [Finite 0; Finite 1]] |}
           (Array1 [Finite 1; Finite 0; Finite 0]) 5);
    [reflexivity | discriminate | right; discriminate].
Defined.

(** *** The order of the results *)

Lemma reported_total (a b : fp) :
  reported a -> reported b -> fp_ltb a b = false -> fp_leb b a = true.
Proof.
  intros (x & -> & _) (y & -> & _). simpl. intros H.
  apply Qle_bool_iff. now apply Qltb_ge.
Qed.

Lemma reported_lt_le (a b : fp) :
  reported a -> reported b -> fp_ltb a b = true -> fp_leb a b = true.
Proof.
  intros (x & -> & _) (y & -> & _). simpl. intros H.
  apply Qle_bool_iff, Qlt_le_weak. now apply Qltb_lt.
Qed.

Lemma reported_trans (a b c : fp) :
  reported a -> reported b -> reported c ->
  fp_leb a b = true -> fp_leb b c = true -> fp_leb a c = true.
Proof.
  intros (x & -> & _) (y & -> & _) (z & -> & _). simpl. intros H1 H2.
  apply Qle_bool_iff in H1, H2. apply Qle_bool_iff. now apply Qle_trans with y.
Qed.

Lemma reported_le_max (a : fp) : reported a -> fp_leb a flt_max = true.
Proof. now intros (x & -> & _ & H). Qed.

Lemma flt_max_reported : reported flt_max.
Proof.
  rewrite flt_max_val. eexists. split; [reflexivity|].
  split; [discriminate | reflexivity].
Qed.

Lemma insert_hit_reported (h : hit) (l : list hit) :
  reported (fst h) -> Forall (fun x => reported (fst x)) l ->
  Forall (fun x => reported (fst x)) (insert_hit h l).
Proof.
  intros Hh Hl. apply List.Forall_forall. intros x Hx.
  apply In_insert_hit in Hx as [-> | Hx]; [exact Hh|].
  rewrite List.Forall_forall in Hl. now apply Hl.
Qed.

Lemma insert_hit_ascend (h : hit) (l : list hit) :
  reported (fst h) -> Forall (fun x => reported (fst x)) l ->
  distances_ascend l -> distances_ascend (insert_hit h l).
Proof.
  intros Hh. unfold distances_ascend.
  induction l as [|y l IH]; intros Hl Hs; simpl.
  - constructor; constructor.
  - inversion Hl as [|? ? Hy Hl']; subst.
    inversion Hs as [|? ? Hs' Hall]; subst.
    destruct (fp_ltb (fst h) (fst y)) eqn:E.
    + constructor; [exact Hs|].
      assert (Hhy : fp_leb (fst h) (fst y) = true) by now apply reported_lt_le.
      constructor; [exact Hhy|].
      rewrite List.Forall_forall in *. intros z Hz.
      apply reported_trans with (fst y); auto.
    + constructor; [now apply IH|].
      apply List.Forall_forall. intros z Hz.
      apply In_insert_hit in Hz as [-> | Hz].
      * now apply reported_total.
      * rewrite List.Forall_forall in Hall. now apply Hall.
Qed.

Lemma sort_hits_ascend (l : list hit) :
  Forall (fun x => reported (fst x)) l ->
  distances_ascend (sort_hits l)
  /\ Forall (fun x => reported (fst x)) (sort_hits l).
Proof.
  unfold sort_hits.
  assert (H : forall acc,
             Forall (fun x => reported (fst x)) l ->
             Forall (fun x => reported (fst x)) acc ->
             distances_ascend acc ->
             distances_ascend (fold_left (fun acc h => insert_hit h acc) l acc)
             /\ Forall (fun x => reported (fst x))
                       (fold_left (fun acc h => insert_hit h acc) l acc)).
  { induction l as [|h l IH]; intros acc Hl Hacc Hs; simpl; [now split|].
    inversion Hl; subst.
    apply IH; [assumption | now apply insert_hit_reported
               | now apply insert_hit_ascend]. }
  intros Hl. apply H; [exact Hl | constructor | constructor].
Qed.

Lemma take_ascend (k : nat) :
  forall l : list hit, distances_ascend l -> distances_ascend (take k l).
Proof.
  unfold distances_ascend.
  induction k as [|k IH]; intros [|x l] Hs; simpl; try constructor.
  - inversion Hs; subst. now apply IH.
  - inversion Hs as [|? ? _ Hall]; subst.
    apply List.Forall_forall. intros y Hy. apply In_take in Hy.
    rewrite List.Forall_forall in Hall. now apply Hall.
Qed.

Lemma candidates_reported (index0 : IndexFlatL2) (q : vec) :
  Forall (fun x : hit => reported (fst x))
         (List.filter (fun h : hit => fp_ltb (fst h) flt_max)
                      (distances_from 0 q (xb index0))).
Proof.
  apply List.Forall_forall. intros [dist idx] H.
  apply filter_In in H as [H Hlt].
  apply In_distances_from in H as (v & _ & _ & ->).
  apply below_max_finite; [apply fvec_L2sqr_not_negative | exact Hlt].
Qed.

Lemma ascend_then_fillers (l : list hit) (n : nat) :
  Forall (fun x => reported (fst x)) l -> distances_ascend l ->
  distances_ascend (l ++ repeat (flt_max, (-1)%Z) n).
Proof.
  unfold distances_ascend. intros Hl Hs.
  induction l as [|x l IH]; simpl.
  - induction n as [|n IHn]; simpl; constructor; [exact IHn|].
    apply List.Forall_forall. intros y Hy. apply repeat_spec in Hy. now subst.
  - inversion Hl; subst. inversion Hs as [|? ? Hs' Hall]; subst.
    constructor; [now apply IH|].
    apply Forall_app. split; [exact Hall|].
    apply List.Forall_forall. intros y Hy. apply repeat_spec in Hy. subst y.
    now apply reported_le_max.
Qed.

(** The index reports its hits nearest first. *)
Lemma knn_ascend (index0 : IndexFlatL2) (q : vec) (k : nat) :
  distances_ascend (knn index0 q k)
  /\ Forall (fun x : hit => reported (fst x)) (knn index0 q k).
Proof.
  split.
  - unfold knn.
    destruct (sort_hits_ascend _ (candidates_reported index0 q)) as [Hs Hr].
    apply ascend_then_fillers; [|now apply take_ascend].
    apply List.Forall_forall. intros x Hx. apply In_take in Hx.
    rewrite List.Forall_forall in Hr. now apply Hr.
  - apply List.Forall_forall. intros [dist idx] H.
    now apply knn_distance_range in H.
Qed.

Lemma descend_snoc (l : list (Doc * fp)) (x : Doc * fp) :
  scores_descend l -> Forall (fun a => fp_leb (snd x) (snd a) = true) l ->
  scores_descend (l ++ [x]).
Proof.
  unfold scores_descend. intros Hs Hall.
  induction l as [|a l IH]; simpl.
  - constructor; constructor.
  - inversion Hs as [|? ? Hs' Ha]; subst. inversion Hall; subst.
    constructor; [now apply IH|].
    apply Forall_app. split; [exact Ha | now constructor].
Qed.

Section Ordered.

Variable fmt : format.
Hypothesis Hfmt : carries_scores fmt.

Lemma similarity_le_of_reported (a b : fp) :
  reported a -> reported b -> fp_leb a b = true ->
  fp_leb (similarity fmt b) (similarity fmt a) = true.
Proof.
  intros (x & -> & Hx & _) (y & -> & _ & _) H. simpl in H.
  apply Qle_bool_iff in H. now apply similarity_antitone.
Qed.

Lemma collect_results_descend (docs : list Doc) (hits : list hit) :
  forall acc results,
    Forall (fun x : hit => reported (fst x)) hits ->
    distances_ascend hits ->
    scores_descend acc ->
    (forall a h, In a acc -> In h hits ->
                 fp_leb (similarity fmt (fst h)) (snd a) = true) ->
    collect_results fmt docs hits acc = Returned results ->
    scores_descend results.
Proof.
  induction hits as [|[dist idx] rest IH]; intros acc results Hr Hs Hacc Hle; simpl.
  - now intros [= <-].
  - inversion Hr as [|? ? Hd Hr']; subst.
    inversion Hs as [|? ? Hs' Hall]; subst.
    destruct (idx <? _)%Z.
    + destruct (doc_at docs idx) as [doc|e]; [|discriminate].
      apply IH; [exact Hr' | exact Hs' | |].
      * apply descend_snoc; [exact Hacc|].
        apply List.Forall_forall. intros a Ha. simpl.
        apply (Hle a (dist, idx)); [exact Ha | now left].
      * intros a h Ha Hh. apply in_app_or in Ha as [Ha | [<- | []]].
        -- apply Hle; [exact Ha | now right].
        -- simpl. rewrite List.Forall_forall in Hall, Hr'.
           apply similarity_le_of_reported; [exact Hd | now apply Hr' |].
           now apply (Hall h).
    + apply IH; [exact Hr' | exact Hs' | exact Hacc |].
      intros a h Ha Hh. apply Hle; [exact Ha | now right].
Qed.

End Ordered.

(** The results of [search] come with scores that never go up: the best
    match first. *)
Theorem search_results_best_first (score_format : format) (self : store)
        (query_embedding : ndarray) (top_k : Z) :
  carries_scores score_format ->
  scores_descend (fst (search score_format self query_embedding top_k)).
Proof.
  intros Hfmt. unfold search.
  destruct (index self) as [index0|]; [|constructor].
  destruct (Nat.eqb _ 0); [constructor|].
  destruct (search_body _ _ _ _ _) as [results|e] eqn:E; [|constructor].
  simpl. apply search_body_hits in E as (q & _ & E).
  destruct (knn_ascend index0 q
              (Z.to_nat (Z.min top_k (Z.of_nat (List.length (documents self))))))
    as [Hs Hr].
  eapply collect_results_descend;
    [exact Hfmt | exact Hr | exact Hs | constructor | | exact E].
  intros a h [].
Qed.

Lemma search_results_best_first_witness :
  carries_scores binary32
  /\ scores_descend (fst (search binary32 two_doc_store query_near_sky 2)).
Proof.
  split; [exact binary32_carries_scores|].
  exact (search_results_best_first binary32 two_doc_store query_near_sky 2
           binary32_carries_scores).
Defined.

(** *** A search that runs *)

Lemma knn_labels (index0 : IndexFlatL2) (q : vec) (k : nat) :
  Forall (fun h : hit => (-1 <= snd h < Z.of_nat (ntotal index0))%Z)
         (knn index0 q k).
Proof.
  apply List.Forall_forall. intros [dist idx] H. simpl.
  apply In_knn in H as [[_ ->] | (v & Hidx & Hn & _)]; [lia|].
  assert (Hlt : (Z.to_nat idx < List.length (xb index0))%nat).
  { apply nth_error_Some. congruence. }
  unfold ntotal. lia.
Qed.

Lemma collect_results_all (fmt : format) (docs : list Doc) (hits : list hit) :
  docs <> [] ->
  Forall (fun h : hit => (-1 <= snd h < Z.of_nat (List.length docs))%Z) hits ->
  forall acc,
  exists results,
    collect_results fmt docs hits acc = Returned results
    /\ List.length results = (List.length acc + List.length hits)%nat.
Proof.
  intros Hne. induction hits as [|[dist idx] rest IH]; intros Hall acc; simpl.
  - exists acc. split; [reflexivity | lia].
  - inversion Hall as [|? ? Hidx Hall']; subst. simpl in Hidx.
    destruct (Z.ltb_spec idx (Z.of_nat (List.length docs))); [|lia].
    assert (Hdoc : exists doc, doc_at docs idx = Returned doc).
    { unfold doc_at.
      set (n := Z.of_nat (List.length docs)) in *.
      set (i := if (idx <? 0)%Z then (idx + n)%Z else idx).
      assert (Hn : (0 < n)%Z).
      { subst n. destruct docs; [congruence | simpl; lia]. }
      assert (Hi : (0 <= i < n)%Z).
      { subst i. destruct (Z.ltb_spec idx 0); lia. }
      replace ((0 <=? i) && (i <? n))%Z with true
        by (symmetry; apply andb_true_iff; split;
            [apply Z.leb_le | apply Z.ltb_lt]; lia).
      destruct (nth_error docs (Z.to_nat i)) as [doc|] eqn:E; [now exists doc|].
      apply nth_error_None in E. subst n. lia. }
    destruct Hdoc as [doc ->].
    destruct (IH Hall' (acc ++ [(doc, similarity fmt dist)])) as (results & Hc & Hlen).
    exists results. split; [exact Hc|].
    rewrite Hlen, length_app. simpl. lia.
Qed.

(** On a store in lockstep a good query with [top_k >= 1] is answered
    without a message, with exactly [min(top_k, number of documents)]
    results. *)
Theorem search_fills_top_k (score_format : format) (self : store)
        (index0 : IndexFlatL2) (query_embedding : ndarray) (top_k : Z) :
  index self = Some index0 -> documents self <> [] -> in_lockstep self ->
  good_query index0 query_embedding -> (1 <= top_k)%Z ->
  snd (search score_format self query_embedding top_k) = []
  /\ Z.of_nat (List.length (fst (search score_format self query_embedding top_k)))
     = Z.min top_k (Z.of_nat (List.length (documents self))).
Proof.
  intros Hidx Hdocs Hl Hq Hk. unfold search. rewrite Hidx.
  unfold in_lockstep in Hl. rewrite Hidx in Hl.
  destruct (documents self) as [|doc0 docs] eqn:D; [congruence|].
  simpl Nat.eqb. cbv iota.
  remember (Z.min top_k (Z.of_nat (List.length (doc0 :: docs)))) as k' eqn:Hk'.
  assert (Hpos : (0 < k')%Z) by (simpl in Hk'; lia).
  assert (Hbody : exists q,
             search_body score_format index0 (doc0 :: docs) query_embedding top_k
             = collect_results score_format (doc0 :: docs)
                               (knn index0 q (Z.to_nat k')) []).
  { unfold search_body, good_query in *. rewrite <- Hk'.
    destruct query_embedding as [v|ncols rows]; unfold reshape_row, Faiss.search.
    - rewrite Hq, Nat.eqb_refl. cbn [negb].
      destruct (Z.leb_spec k' 0); [lia|]. cbn [map]. now exists v.
    - destruct Hq as [-> Hrows]. rewrite Nat.eqb_refl. cbn [negb].
      destruct (Z.leb_spec k' 0); [lia|].
      destruct rows as [|q rows]; [congruence|]. cbn [map]. now exists q. }
  destruct Hbody as [q ->].
  destruct (collect_results_all score_format (doc0 :: docs)
              (knn index0 q (Z.to_nat k'))) with (acc := @nil (Doc * fp))
    as (results & -> & Hlen).
  - discriminate.
  - rewrite <- Hl. apply knn_labels.
  - simpl. split; [reflexivity|].
    rewrite Hlen, knn_length. simpl List.length. lia.
Qed.

Lemma search_fills_top_k_witness :
  in_lockstep two_doc_store
  /\ good_query {| d := 2; xb := [[Finite 1; Finite 0]; [Finite 0; Finite 1]] |}
                query_near_sky
  /\ snd (search binary32 two_doc_store query_near_sky 5) = []
  /\ Z.of_nat (List.length (fst (search binary32 two_doc_store query_near_sky 5)))
     = Z.min 5 (Z.of_nat (List.length (documents two_doc_store))).
Proof.
  split; [reflexivity|]. split; [split; [reflexivity | discriminate]|].
  apply (search_fills_top_k binary32 two_doc_store
           {| d := 2; xb := [[Finite 1; Finite 0]; [Finite 0; Finite 1]] |}
           query_near_sky 5);
    [reflexivity | discriminate | reflexivity
     | split; [reflexivity | discriminate] | lia].
Defined.

End VectorStoreMore.

(** ** Further properties of the chunker *)

Module ChunkerMore.
Import Py PyStr Chunker PyStrFacts ChunkerFacts Embedding.

(** *** Chunks are pieces of the text *)

Lemma lstrip_split (s : str) :
  exists ws, s = ws ++ lstrip s /\ forallb is_space ws = true.
Proof.
  induction s as [|c s (ws & E & Hws)]; simpl.
  - now exists [].
  - destruct (is_space c) eqn:Hc.
    + exists (c :: ws). simpl. rewrite Hc, Hws. split; [now rewrite <- E | reflexivity].
    + now exists [].
Qed.

Lemma rstrip_split (s : str) :
  exists ws, s = rstrip s ++ ws /\ forallb is_space ws = true.
Proof.
  unfold rstrip. destruct (lstrip_split (rev s)) as (ws & E & Hws).
  exists (rev ws). split.
  - rewrite <- rev_app_distr, <- E. now rewrite rev_involutive.
  - rewrite forallb_forall in *. intros x Hx. apply Hws. now apply in_rev.
Qed.

(** A string is its stripped form between two runs of white space. *)
Lemma strip_split (s : str) :
  exists ws1 ws2,
    s = ws1 ++ strip s ++ ws2
    /\ forallb is_space ws1 = true /\ forallb is_space ws2 = true.
Proof.
  unfold strip.
  destruct (lstrip_split s) as (ws1 & E1 & H1).
  destruct (rstrip_split (lstrip s)) as (ws2 & E2 & H2).
  exists ws1, ws2. split; [|now split].
  now rewrite <- E2.
Qed.

Lemma slice_split (s : str) (a b : Z) :
  exists before after, s = before ++ slice s a b ++ after
                       /\ List.length before = Z.to_nat (clip (len s) a).
Proof.
  unfold slice.
  exists (firstn (Z.to_nat (clip (len s) a)) s),
         (skipn (Z.to_nat (clip (len s) b - clip (len s) a))
                (skipn (Z.to_nat (clip (len s) a)) s)).
  split.
  - now rewrite !firstn_skipn.
  - rewrite length_take. unfold clip, len.
    destruct (Z.ltb_spec a 0); lia.
Qed.

Lemma part_of_strip_slice (text : str) (a b : Z) :
  part_of text (strip (slice text a b)).
Proof.
  destruct (slice_split text a b) as (before & after & E & _).
  destruct (strip_split (slice text a b)) as (ws1 & ws2 & E' & _).
  exists (before ++ ws1), (ws2 ++ after).
  rewrite E at 1. rewrite E' at 1. now rewrite <- !app_assoc.
Qed.

Lemma chunk_text_parts (fuel : nat) (text : str)
      (chunk_size overlap : Z) (result : list str) :
  chunk_text fuel text chunk_size overlap = Some (Returned result) ->
  Forall (part_of text) result.
Proof.
  unfold chunk_text. destruct (len text <=? chunk_size).
  - intros [= <-]. constructor; [|constructor].
    exists [], []. now rewrite app_nil_r.
  - apply chunk_loop_Forall; [|constructor].
    intros start e _ _. apply part_of_strip_slice.
Qed.

(** Every chunk that [chunk_text] returns stands in the text as one
    piece: nothing is rewritten, reordered or joined. *)
Theorem chunks_are_parts_of_the_text (fuel : nat) (text : str)
        (chunk_size overlap : Z) (result : list str) :
  chunk_text fuel text chunk_size overlap = Some (Returned result) ->
  Forall (part_of text) result.
Proof. apply chunk_text_parts. Qed.

Lemma chunks_are_parts_of_the_text_witness :
  chunk_text 10 sample_text 12 3
  = Some (Returned [lit "Hello world."; lit "ld. This is"; lit "is a test!";
                    lit "st! Is it?"; lit "it? yes it i"; lit "t is ok"])
  /\ Forall (part_of sample_text)
            [lit "Hello world."; lit "ld. This is"; lit "is a test!";
             lit "st! Is it?"; lit "it? yes it i"; lit "t is ok"].
Proof.
  assert (H : chunk_text 10 sample_text 12 3
              = Some (Returned [lit "Hello world."; lit "ld. This is";
                                lit "is a test!"; lit "st! Is it?";
                                lit "it? yes it i"; lit "t is ok"]))
    by reflexivity.
  split; [exact H|].
  exact (chunks_are_parts_of_the_text 10 sample_text 12 3 _ H).
Defined.

(** *** No character of the text is lost *)

Lemma slice_length (s : str) (a b : Z) :
  List.length (slice s a b) = Z.to_nat (clip (len s) b - clip (len s) a).
Proof.
  unfold slice. rewrite length_take, length_drop. unfold clip, len.
  destruct (Z.ltb_spec a 0), (Z.ltb_spec b 0); lia.
Qed.

Lemma space_run_has_no_other (ws : str) (i : nat) (c : ascii) :
  forallb is_space ws = true -> nth_error ws i = Some c -> is_space c = true.
Proof.
  intros Hws Hn. rewrite forallb_forall in Hws.
  apply Hws. now apply nth_error_In in Hn.
Qed.

(** A character that is no white space survives the stripping, at its
    place. *)
Lemma strip_keeps (s : str) (i : nat) (c : ascii) :
  nth_error s i = Some c -> is_space c = false ->
  exists ws1 ws2,
    s = ws1 ++ strip s ++ ws2
    /\ (List.length ws1 <= i < List.length ws1 + List.length (strip s))%nat.
Proof.
  intros Hn Hc.
  destruct (strip_split s) as (ws1 & ws2 & E & H1 & H2).
  exists ws1, ws2. split; [exact E|].
  rewrite E in Hn.
  destruct (Nat.lt_ge_cases i (List.length ws1)) as [Hlt|Hge].
  - rewrite nth_error_app1 in Hn by exact Hlt.
    apply (space_run_has_no_other _ _ _ H1) in Hn. congruence.
  - rewrite nth_error_app2 in Hn by exact Hge.
    destruct (Nat.lt_ge_cases (i - List.length ws1) (List.length (strip s)))
      as [Hlt|Hge2]; [lia|].
    rewrite nth_error_app2 in Hn by exact Hge2.
    apply (space_run_has_no_other _ _ _ H2) in Hn. congruence.
Qed.

(** The chunk cut from a window takes in every position of the window
    whose character is no white space. *)
Lemma window_holds (text : str) (start e : Z) (p : nat) (c : ascii) :
  0 <= start <= Z.of_nat p -> Z.of_nat p < e ->
  nth_error text p = Some c -> is_space c = false ->
  strip (slice text start e) <> []
  /\ holds_position text (strip (slice text start e)) p.
Proof.
  intros Hs He Hn Hc.
  assert (Hp : (p < List.length text)%nat) by (apply nth_error_Some; congruence).
  destruct (slice_split text start e) as (before & after & E & Hb).
  pose proof (slice_length text start e) as Hlen.
  assert (Ha : clip (len text) start = start).
  { unfold clip, len. destruct (Z.ltb_spec start 0); lia. }
  assert (Hbe : Z.of_nat p < clip (len text) e).
  { unfold clip, len. destruct (Z.ltb_spec e 0); lia. }
  rewrite Ha in Hb, Hlen.
  assert (Hin : nth_error (slice text start e) (p - List.length before) = Some c).
  { rewrite E in Hn.
    rewrite nth_error_app2 in Hn by lia.
    rewrite nth_error_app1 in Hn by lia. exact Hn. }
  destruct (strip_keeps _ _ _ Hin Hc) as (ws1 & ws2 & E' & Hi).
  split.
  - intros Hnil. rewrite Hnil in Hi. simpl in Hi. lia.
  - exists (before ++ ws1), (ws2 ++ after). split.
    + rewrite E at 1. rewrite E' at 1. now rewrite <- !app_assoc.
    + rewrite length_app. lia.
Qed.

Lemma chunk_loop_keeps (text : str) (chunk_size overlap : Z) :
  0 <= overlap < min_advance chunk_size ->
  forall fuel start chunks bound result,
    0 <= start <= bound ->
    kept_upto text chunks bound ->
    chunk_loop fuel text chunk_size overlap start chunks = Some (Returned result) ->
    kept_upto text result (len text).
Proof.
  intros Hov.
  assert (Hlast : forall chunks bound,
             len text <= bound -> kept_upto text chunks bound ->
             kept_upto text chunks (len text)).
  { intros chunks bound Hb Hk p c Hp. apply Hk. lia. }
  induction fuel as [|fuel IH]; intros start chunks bound result Hs Hk; simpl.
  - destruct (Z.ltb_spec start (len text)); [discriminate|].
    intros [= <-]. apply (Hlast _ bound); [lia | exact Hk].
  - destruct (Z.ltb_spec start (len text)).
    2:{ intros [= <-]. apply (Hlast _ bound); [lia | exact Hk]. }
    destruct (find_end text chunk_size start) as [e|x] eqn:E; [|discriminate].
    pose proof (find_end_advance _ _ _ _ E) as Hadv.
    assert (Hk' : kept_upto text
                    (append_chunk chunks (strip (slice text start e)))
                    (Z.max bound e)).
    { intros p c Hp Hn Hc.
      destruct (Z.lt_ge_cases (Z.of_nat p) bound) as [Hlt|Hge].
      - destruct (Hk p c Hlt Hn Hc) as (chunk & Hin & Hh).
        exists chunk. split; [|exact Hh].
        unfold append_chunk. destruct (truthy _); [|exact Hin].
        apply in_or_app. now left.
      - destruct (window_holds text start e p c) as [Hne Hh];
          [lia | lia | exact Hn | exact Hc |].
        exists (strip (slice text start e)). split; [|exact Hh].
        unfold append_chunk.
        replace (truthy (strip (slice text start e))) with true
          by (symmetry; now apply truthy_true).
        apply in_or_app. right. now left. }
    destruct (Z.geb_spec (e - overlap) (len text)).
    + intros [= <-]. apply (Hlast _ (Z.max bound e)); [lia | exact Hk'].
    + apply (IH _ _ (Z.max bound e)); [lia | exact Hk'].
Qed.

(** With an overlap that is not negative and below the least advance of
    the window, no character other than white space is lost: every such
    character of the text lies, at its position, inside a returned chunk. *)
Theorem every_character_is_in_a_chunk (fuel : nat) (text : str)
        (chunk_size overlap : Z) (result : list str) (p : nat) (c : ascii) :
  0 <= overlap < min_advance chunk_size ->
  chunk_text fuel text chunk_size overlap = Some (Returned result) ->
  nth_error text p = Some c -> is_space c = false ->
  exists chunk, In chunk result /\ holds_position text chunk p.
Proof.
  intros Hov Hret Hn Hc.
  assert (Hp : (p < List.length text)%nat) by (apply nth_error_Some; congruence).
  unfold chunk_text in Hret. destruct (len text <=? chunk_size).
  - injection Hret as <-. exists text. split; [now left|].
    exists [], []. rewrite app_nil_r. split; [reflexivity | simpl; lia].
  - eapply (chunk_loop_keeps text chunk_size overlap Hov fuel 0 [] 0 result);
      [lia | | exact Hret | | exact Hn | exact Hc].
    + intros q c' Hq. lia.
    + unfold len. lia.
Qed.

Lemma every_character_is_in_a_chunk_witness :
  0 <= 3 < min_advance 12
  /\ exists chunk,
      In chunk [lit "Hello world."; lit "ld. This is"; lit "is a test!";
                lit "st! Is it?"; lit "it? yes it i"; lit "t is ok"]
      /\ holds_position sample_text chunk 21.
Proof.
  split; [vm_compute; split; [discriminate | reflexivity]|].
  apply (every_character_is_in_a_chunk 10 sample_text 12 3 _ 21 "a"%char);
    [vm_compute; split; [discriminate | reflexivity]
    | reflexivity | reflexivity | reflexivity].
Defined.

End ChunkerMore.

(** ** Properties of the preparation of documents *)

Module EmbeddingSpec.
Import Py PyStr Chunker PyStrFacts ChunkerFacts Embedding ChunkerMore.

Lemma process_loop_skips (fuel : nat) (chunk_size : Z) (documents : list Doc) :
  forall processed,
    process_loop fuel documents chunk_size processed
    = process_loop fuel (List.filter has_content documents) chunk_size processed.
Proof.
  induction documents as [|doc rest IH]; intros processed; simpl; [reflexivity|].
  unfold has_content at 1.
  destruct (truthy (field doc "content")) eqn:E; simpl.
  - rewrite E.
    destruct (chunk_text fuel _ chunk_size default_overlap) as [[chunks|e]|];
      [apply IH | reflexivity | reflexivity].
  - apply IH.
Qed.

(** Documents whose content is missing or empty make no difference to the
    outcome: they are passed over, whatever else they carry. *)
Theorem documents_without_content_are_skipped (fuel : nat)
        (documents : list Doc) (chunk_size : Z) :
  process_documents_for_embedding fuel documents chunk_size
  = process_documents_for_embedding fuel (List.filter has_content documents)
                                    chunk_size.
Proof. apply process_loop_skips. Qed.

(** A property of the records of each document's chunks is a property of
    every record returned. *)
Lemma process_loop_Forall (P : chunk_doc -> Prop) (fuel : nat) (chunk_size : Z)
      (documents : list Doc) :
  (forall doc chunks,
      In doc documents -> has_content doc = true ->
      chunk_text fuel (field doc "content") chunk_size default_overlap
      = Some (Returned chunks) ->
      Forall P (chunk_records doc (List.length chunks) 0 chunks)) ->
  forall processed result,
    Forall P processed ->
    process_loop fuel documents chunk_size processed = Some (Returned result) ->
    Forall P result.
Proof.
  induction documents as [|doc rest IH]; intros Hstep processed result Hp; simpl.
  - now intros [= <-].
  - destruct (truthy (field doc "content")) eqn:E.
    + destruct (chunk_text fuel _ chunk_size default_overlap)
        as [[chunks|e]|] eqn:C; try discriminate.
      apply IH.
      * intros d cs Hd. apply Hstep. now right.
      * apply Forall_app. split; [exact Hp|].
        apply Hstep; [now left | exact E | exact C].
    + apply IH; [|exact Hp]. intros d cs Hd. apply Hstep. now right.
Qed.

Lemma chunk_records_numbered (doc : Doc) (total : nat) (chunks : list str) :
  forall i,
    (i + List.length chunks <= total)%nat ->
    Forall (fun r =>
              (chunk_id r < total_chunks r)%nat
              /\ total_chunks r = total
              /\ In (content r) chunks
              /\ title r = field doc "title"
              /\ url r = field doc "url"
              /\ source r = field doc "source")
           (chunk_records doc total i chunks).
Proof.
  induction chunks as [|chunk rest IH]; intros i Hi; simpl; constructor.
  - simpl in *. repeat split; [lia | now left].
  - simpl in Hi. eapply Forall_impl; [apply (IH (S i)); lia|].
    simpl. intros r (H1 & H2 & H3 & H4). repeat split; try tauto; try (right; tauto).
Qed.

(** Every record returned belongs to a document of the input that has
    content: it carries that document's title, URL and source, a chunk that
    is a piece of its content, and a number below its total. *)
Theorem records_belong_to_documents (fuel : nat) (documents : list Doc)
        (chunk_size : Z) (result : list chunk_doc) :
  process_documents_for_embedding fuel documents chunk_size
  = Some (Returned result) ->
  Forall (fun r =>
            (chunk_id r < total_chunks r)%nat
            /\ exists doc,
                In doc documents
                /\ has_content doc = true
                /\ part_of (field doc "content") (content r)
                /\ title r = field doc "title"
                /\ url r = field doc "url"
                /\ source r = field doc "source")
         result.
Proof.
  unfold process_documents_for_embedding.
  apply process_loop_Forall; [|constructor].
  intros doc chunks Hin Hc Hchunks.
  pose proof (chunk_text_parts _ _ _ _ _ Hchunks) as Hparts.
  eapply Forall_impl; [apply (chunk_records_numbered doc _ chunks 0); lia|].
  simpl. intros r (H1 & _ & H3 & H4 & H5 & H6).
  split; [exact H1|]. exists doc. repeat split; try assumption.
  rewrite List.Forall_forall in Hparts. now apply Hparts.
Qed.

Lemma records_belong_to_documents_witness :
  process_documents_for_embedding 0 [empty_doc; short_doc] 1000
  = Some (Returned (chunk_records short_doc 1 0 [lit "The sky is blue."]))
  /\ Forall (fun r =>
              (chunk_id r < total_chunks r)%nat
              /\ exists doc,
                  In doc [empty_doc; short_doc]
                  /\ has_content doc = true
                  /\ part_of (field doc "content") (content r)
                  /\ title r = field doc "title"
                  /\ url r = field doc "url"
                  /\ source r = field doc "source")
            (chunk_records short_doc 1 0 [lit "The sky is blue."]).
Proof.
  assert (H : process_documents_for_embedding 0 [empty_doc; short_doc] 1000
              = Some (Returned (chunk_records short_doc 1 0
                                              [lit "The sky is blue."])))
    by reflexivity.
  split; [exact H|].
  exact (records_belong_to_documents 0 [empty_doc; short_doc] 1000 _ H).
Defined.

(** *** The call comes back *)

Lemma chunk_text_fuel_mono (fuel fuel' : nat) (text : str)
      (chunk_size overlap : Z) (r : outcome (list str)) :
  (fuel <= fuel')%nat ->
  chunk_text fuel text chunk_size overlap = Some r ->
  chunk_text fuel' text chunk_size overlap = Some r.
Proof.
  intros Hle. unfold chunk_text. destruct (len text <=? chunk_size); [easy|].
  now apply chunk_loop_fuel_mono.
Qed.

Lemma process_loop_fuel_mono (fuel fuel' : nat) (chunk_size : Z)
      (documents : list Doc) :
  (fuel <= fuel')%nat ->
  forall processed r,
    process_loop fuel documents chunk_size processed = Some r ->
    process_loop fuel' documents chunk_size processed = Some r.
Proof.
  intros Hle. induction documents as [|doc rest IH]; intros processed r; simpl;
    [easy|].
  destruct (truthy (field doc "content")); [|apply IH].
  destruct (chunk_text fuel _ chunk_size default_overlap) as [o|] eqn:C;
    [|discriminate].
  rewrite (chunk_text_fuel_mono _ _ _ _ _ _ Hle C).
  destruct o; [apply IH | easy].
Qed.

Lemma default_overlap_advances (chunk_size : Z) :
  299 <= chunk_size -> 0 <= default_overlap < min_advance chunk_size.
Proof. unfold default_overlap, min_advance. lia. Qed.

Lemma process_loop_returns (chunk_size : Z) (documents : list Doc) :
  299 <= chunk_size ->
  forall processed,
  exists fuel result,
    process_loop fuel documents chunk_size processed = Some (Returned result).
Proof.
  intros Hc. induction documents as [|doc rest IH]; intros processed; simpl.
  - now exists 0%nat, processed.
  - destruct (truthy (field doc "content")).
    + destruct (chunk_text_returns (field doc "content") chunk_size default_overlap
                  (default_overlap_advances _ Hc)) as [chunks Hchunks].
      destruct (IH (processed
                    ++ chunk_records doc (List.length chunks) 0 chunks))
        as (fuel & result & Hrest).
      exists (Nat.max fuel (Z.to_nat (len (field doc "content")))), result.
      rewrite (chunk_text_fuel_mono _ _ _ _ _ _ (Nat.le_max_r _ _) Hchunks).
      apply (process_loop_fuel_mono _ _ _ _ (Nat.le_max_l _ _) _ _ Hrest).
    + destruct (IH processed) as (fuel & result & Hrest).
      exists fuel, result. exact Hrest.
Qed.

(** With a chunk size of 299 or more (the application offers 500 to 2000)
    the default overlap never stalls the chunker: for every list of
    documents the call returns, raising nothing, and no chunk is longer than
    the chunk size plus one. *)
Theorem process_documents_returns (documents : list Doc) (chunk_size : Z) :
  299 <= chunk_size ->
  exists fuel result,
    process_documents_for_embedding fuel documents chunk_size
    = Some (Returned result)
    /\ Forall (fun r => len (content r) <= chunk_size + 1) result.
Proof.
  intros Hc. unfold process_documents_for_embedding.
  destruct (process_loop_returns chunk_size documents Hc []) as (fuel & result & H).
  exists fuel, result. split; [exact H|].
  revert H. apply process_loop_Forall; [|constructor].
  intros doc chunks _ _ Hchunks.
  assert (Hlen : Forall (fun c => len c <= chunk_size + 1) chunks)
    by (apply (chunk_text_len_bound _ _ _ _ _) in Hchunks; [exact Hchunks | lia]).
  eapply Forall_impl; [apply (chunk_records_numbered doc _ chunks 0); lia|].
  simpl. intros r (_ & _ & Hin & _).
  rewrite List.Forall_forall in Hlen. now apply Hlen.
Qed.

Lemma process_documents_returns_witness :
  299 <= 1000
  /\ exists fuel result,
      process_documents_for_embedding fuel [empty_doc; short_doc] 1000
      = Some (Returned result)
      /\ Forall (fun r => len (content r) <= 1000 + 1) result.
Proof.
  split; [lia|].
  apply (process_documents_returns [empty_doc; short_doc] 1000). lia.
Defined.

End EmbeddingSpec.

(** ** An overlap beyond the window *)

Module OverlapSpec.
Import Py PyStr Chunker PyStrFacts ChunkerFacts Embedding EmbeddingSpec.

Lemma scan_back_raises (text : str) (n : nat) :
  forall i e,
    scan_back text i n = Raised e ->
    e = Exn "IndexError" "string index out of range".
Proof.
  induction n as [|n IH]; intros i e; simpl; [discriminate|].
  destruct (index text i) as [c|]; [|now intros [= <-]].
  destruct (is_sentence_end c); [discriminate | apply IH].
Qed.

Lemma find_end_raises (text : str) (chunk_size start : Z) (e : exn) :
  find_end text chunk_size start = Raised e ->
  e = Exn "IndexError" "string index out of range".
Proof.
  unfold find_end. destruct (_ <? _); [|discriminate].
  destruct (scan_back _ _ _) as [[e'|]|e'] eqn:E; try discriminate.
  intros [= <-]. now apply scan_back_raises in E.
Qed.

Lemma index_below (text : str) (i : Z) : i < - len text -> index text i = None.
Proof.
  intros H. unfold index. pose proof (len_nonneg text).
  destruct (Z.leb_spec 0 i); [lia|]. simpl.
  destruct (Z.leb_spec (- len text) i); [lia|]. reflexivity.
Qed.

(** Below the first character the look-back reads out of the text. *)
Lemma find_end_below (text : str) (chunk_size start : Z) :
  1 <= chunk_size -> start + chunk_size < - len text ->
  exists e, find_end text chunk_size start = Raised e.
Proof.
  intros Hc Hlow. unfold find_end. rewrite lower_bound_shift.
  pose proof (len_nonneg text).
  destruct (Z.ltb_spec (start + chunk_size) (len text)); [|lia].
  assert (chunk_size / 2 < chunk_size) by (apply Z.div_lt; lia).
  destruct (Z.to_nat _) as [|n] eqn:N; [lia|].
  simpl. rewrite index_below by exact Hlow. now eexists.
Qed.

(** With an overlap of more than the window and one character, [start]
    falls with every iteration until the look-back leaves the text. *)
Lemma chunk_loop_raises (text : str) (chunk_size overlap : Z) :
  1 <= chunk_size -> chunk_size + 1 < overlap -> 0 < len text ->
  forall fuel start chunks,
    start <= 0 ->
    Z.max 0 (start + chunk_size + len text + 1) < Z.of_nat fuel ->
    chunk_loop fuel text chunk_size overlap start chunks
    = Some (Raised (Exn "IndexError" "string index out of range")).
Proof.
  intros Hc Ho Hlen.
  induction fuel as [|fuel IH]; intros start chunks Hs Hfuel; [lia|].
  simpl. destruct (Z.ltb_spec start (len text)); [|lia].
  destruct (find_end text chunk_size start) as [e|x] eqn:E.
  - assert (Hin : - len text <= start + chunk_size).
    { destruct (Z.le_gt_cases (- len text) (start + chunk_size)) as [|Hlow];
        [assumption|].
      destruct (find_end_below text chunk_size start Hc Hlow) as [x Hx].
      congruence. }
    apply find_end_advance in E.
    destruct (Z.geb_spec (e - overlap) (len text)); [lia|].
    apply IH; lia.
  - now rewrite (find_end_raises _ _ _ _ E).
Qed.

Lemma chunk_text_raises (text : str) (chunk_size overlap : Z) :
  1 <= chunk_size -> chunk_size + 1 < overlap -> chunk_size < len text ->
  exists fuel,
    chunk_text fuel text chunk_size overlap
    = Some (Raised (Exn "IndexError" "string index out of range")).
Proof.
  intros Hc Ho Hlen.
  exists (Z.to_nat (chunk_size + len text + 2)).
  unfold chunk_text. destruct (Z.leb_spec (len text) chunk_size); [lia|].
  apply chunk_loop_raises; lia.
Qed.

(** With a chunk size of at least 1 and an overlap of more than the chunk
    size plus one, [chunk_text] on a text longer than the chunk size raises
    IndexError: [start] moves backwards until [text[i]] is read before the
    first character. *)
Theorem overlap_beyond_window_raises (text : str) (chunk_size overlap : Z) :
  1 <= chunk_size -> chunk_size + 1 < overlap -> chunk_size < len text ->
  exists fuel,
    chunk_text fuel text chunk_size overlap
    = Some (Raised (Exn "IndexError" "string index out of range")).
Proof. apply chunk_text_raises. Qed.

Lemma overlap_beyond_window_raises_witness :
  (1 <= 2 /\ 2 + 1 < 4 /\ 2 < len (lit "abcde"))
  /\ exists fuel,
      chunk_text fuel (lit "abcde") 2 4
      = Some (Raised (Exn "IndexError" "string index out of range")).
Proof.
  split; [repeat split; vm_compute; first [reflexivity | discriminate]|].
  apply (overlap_beyond_window_raises (lit "abcde") 2 4);
    vm_compute; first [reflexivity | discriminate].
Defined.

Lemma process_loop_raises (chunk_size : Z) (documents : list Doc) :
  1 <= chunk_size <= 198 ->
  (exists doc, In doc documents /\ chunk_size < len (field doc "content")) ->
  forall processed,
  exists fuel,
    process_loop fuel documents chunk_size processed
    = Some (Raised (Exn "IndexError" "string index out of range")).
Proof.
  intros Hc. induction documents as [|d rest IH]; intros (doc & Hin & Hlong);
    [destruct Hin|].
  intros processed. simpl.
  destruct (Z.lt_ge_cases chunk_size (len (field d "content"))) as [Hd|Hd].
  - destruct (chunk_text_raises (field d "content") chunk_size default_overlap)
      as [fuel Hf]; [lia | unfold default_overlap; lia | exact Hd |].
    exists fuel. rewrite Hf.
    assert (Ht : truthy (field d "content") = true).
    { apply truthy_true. intros E. rewrite E in Hd. unfold len in Hd.
      simpl in Hd. lia. }
    now rewrite Ht.
  - assert (Hrest : exists doc, In doc rest
                                /\ chunk_size < len (field doc "content")).
    { exists doc. split; [|exact Hlong].
      destruct Hin as [->|Hin]; [lia | exact Hin]. }
    destruct (truthy (field d "content")).
    + destruct (IH Hrest (processed
                          ++ chunk_records d 1 0 [field d "content"]))
        as [fuel Hf].
      exists fuel. unfold chunk_text.
      destruct (Z.leb_spec (len (field d "content")) chunk_size); [|lia].
      exact Hf.
    + apply (IH Hrest).
Qed.

(** With a chunk size from 1 to 198, below what the application offers,
    one document whose content is longer than the chunk size makes the
    whole call raise IndexError: nothing is returned for any document. *)
Theorem small_chunk_size_raises (documents : list Doc) (chunk_size : Z)
        (doc : Doc) :
  1 <= chunk_size <= 198 ->
  In doc documents ->
  chunk_size < len (field doc "content") ->
  exists fuel,
    process_documents_for_embedding fuel documents chunk_size
    = Some (Raised (Exn "IndexError" "string index out of range")).
Proof.
  intros Hc Hin Hlong. unfold process_documents_for_embedding.
  apply process_loop_raises; [exact Hc|]. now exists doc.
Qed.

Lemma small_chunk_size_raises_witness :
  (1 <= 10 <= 198 /\ In short_doc [empty_doc; short_doc]
   /\ 10 < len (field short_doc "content"))
  /\ exists fuel,
      process_documents_for_embedding fuel [empty_doc; short_doc] 10
      = Some (Raised (Exn "IndexError" "string index out of range")).
Proof.
  assert (H1 : 1 <= 10 <= 198) by lia.
  assert (H2 : In short_doc [empty_doc; short_doc]) by (right; left; reflexivity).
  assert (H3 : 10 < len (field short_doc "content")) by (vm_compute; reflexivity).
  split; [repeat split; try assumption; lia|].
  exact (small_chunk_size_raises [empty_doc; short_doc] 10 short_doc H1 H2 H3).
Defined.

End OverlapSpec.

(** ** The prompts and the reading of the answers *)

Module GeminiSpec.
Import PyStr PyStrFacts Assembler AssemblerSpec Embedding ChunkerMore Gemini.

(** *** The context and its separators *)

Lemma len_app (s t : str) : len (s ++ t) = len s + len t.
Proof. unfold len. rewrite length_app. lia. Qed.

Lemma join_len (sep : str) (parts : list str) :
  len (join sep parts)
  = total_len parts + len sep * Z.max 0 (Z.of_nat (List.length parts) - 1).
Proof.
  induction parts as [|p rest IH]; [simpl; unfold len; simpl; lia|].
  destruct rest as [|q rest].
  - simpl. lia.
  - change (join sep (p :: q :: rest)) with (p ++ sep ++ join sep (q :: rest)).
    rewrite !len_app, IH. simpl List.length. simpl total_len.
    rewrite !Z.max_r by lia. rewrite !Nat2Z.inj_succ. lia.
Qed.

Lemma build_context_parts_count (docs : list Doc) (max_context_length : Z) :
  (List.length (build_context_parts docs max_context_length)
   <= List.length docs)%nat.
Proof.
  unfold build_context_parts.
  destruct (context_loop_prefix max_context_length docs [] 0)
    as (n & Hn & -> & _).
  simpl. rewrite length_map, length_take. lia.
Qed.

(** The budget counts the formatted chunks, not the separators put between
    them: the context is as long as its chunks together and five
    characters for each separator, so it stays within the budget plus five
    characters for every document but the first. *)
Theorem separators_are_not_budgeted (docs : list Doc) (max_context_length : Z) :
  0 <= max_context_length ->
  len (build_context docs max_context_length)
  = total_len (build_context_parts docs max_context_length)
    + 5 * Z.max 0 (Z.of_nat (List.length
                               (build_context_parts docs max_context_length)) - 1)
  /\ len (build_context docs max_context_length)
     <= max_context_length + 5 * Z.max 0 (Z.of_nat (List.length docs) - 1).
Proof.
  intros Hmax. unfold build_context. rewrite join_len.
  change (len (newline ++ lit "---" ++ newline)) with 5.
  split; [reflexivity|].
  pose proof (build_context_parts_count docs max_context_length).
  destruct (context_loop_prefix max_context_length docs [] 0)
    as (n & _ & Hfst & Hsnd & _ & Hfit).
  specialize (Hfit Hmax).
  assert (total_len (build_context_parts docs max_context_length)
          <= max_context_length).
  { unfold build_context_parts. rewrite Hfst. simpl. rewrite Hsnd in Hfit. lia. }
  lia.
Qed.

Lemma separators_are_not_budgeted_witness :
  0 <= 60
  /\ len (build_context [doc_with_url; doc_without_url] 60)
     = total_len (build_context_parts [doc_with_url; doc_without_url] 60)
       + 5 * Z.max 0 (Z.of_nat (List.length
                                  (build_context_parts
                                     [doc_with_url; doc_without_url] 60)) - 1)
  /\ len (build_context [doc_with_url; doc_without_url] 60)
     <= 60 + 5 * Z.max 0 (Z.of_nat (List.length
                                      [doc_with_url; doc_without_url]) - 1).
Proof.
  split; [lia|].
  apply (separators_are_not_budgeted [doc_with_url; doc_without_url] 60). lia.
Defined.

(** *** The summaries of [summarize_research] *)

Lemma slice_prefix_len (s : str) (n : Z) : 0 <= n -> len (slice s 0 n) <= n.
Proof. intros Hn. pose proof (slice_len s 0 n Hn). lia. Qed.

(** A summary holds the title, the URL when there is one, and at most 503
    characters of the content: it is at most 511 characters longer than
    title and URL together. *)
Theorem summary_length_bounded (doc : Doc) :
  len (doc_summary doc)
  <= len (get doc "title" (lit "Untitled")) + len (get doc "url" (lit ""))
     + 511.
Proof.
  unfold doc_summary.
  generalize (get doc "title" (lit "Untitled")) (get doc "url" (lit ""))
             (get doc "content" (lit "")).
  intros title url content.
  pose proof (len_nonneg url).
  pose proof (slice_prefix_len content 500).
  destruct (Z.gtb_spec (len content) 500); destruct (truthy url);
    rewrite !len_app;
    change (len (lit "**")) with 2; change (len newline) with 1;
    try change (len (lit " (")) with 2; try change (len (lit ")")) with 1;
    try change (len (lit "...")) with 3; lia.
Qed.

(** Only the first ten documents reach the prompt of the summary. *)
Theorem summary_reads_first_ten (generate_response : str -> Z -> str)
        (documents : list Doc) (topic : str) :
  summarize_research generate_response documents topic
  = summarize_research generate_response (take 10 documents) topic
  /\ (List.length (doc_summaries documents) <= 10)%nat.
Proof.
  split.
  - destruct documents as [|doc rest]; [reflexivity|].
    change (take 10 (doc :: rest)) with (doc :: take 9 rest).
    unfold summarize_research, summary_prompt, combined_content, doc_summaries.
    change (doc :: take 9 rest) with (take 10 (doc :: rest)).
    now rewrite take_take.
  - unfold doc_summaries. rewrite length_map, length_take. lia.
Qed.

(** *** The questions read from the answer *)

Lemma part_of_refl (s : str) : part_of s s.
Proof. exists [], []. now rewrite app_nil_r. Qed.

Lemma part_of_trans (s t u : str) : part_of s t -> part_of t u -> part_of s u.
Proof.
  intros (b1 & a1 & ->) (b2 & a2 & ->).
  exists (b1 ++ b2), (a2 ++ a1). now rewrite <- !app_assoc.
Qed.

Lemma part_of_strip (s : str) : part_of s (strip s).
Proof.
  destruct (strip_split s) as (ws1 & ws2 & E & _). now exists ws1, ws2.
Qed.

Lemma part_of_cons (c : ascii) (s t : str) : part_of s t -> part_of (c :: s) t.
Proof. intros (b & a & ->). now exists (c :: b), a. Qed.

Lemma after_sep_cut (s : str) (sep : ascii) :
  match after_sep s sep with
  | Some rest => follows_first s sep rest
  | None => contains s sep = false
  end.
Proof.
  induction s as [|c s IH]; simpl; [reflexivity|].
  destruct (Ascii.eqb_spec c sep) as [->|Hne].
  - now exists [].
  - destruct (after_sep s sep) as [rest|].
    + destruct IH as (before & -> & Hb). exists (c :: before). split; [reflexivity|].
      simpl. rewrite Hb. destruct (Ascii.eqb_spec sep c); [congruence | reflexivity].
    + rewrite IH. destruct (Ascii.eqb_spec sep c); [congruence | reflexivity].
Qed.

Lemma contains_app (s t : str) (c : ascii) :
  contains (s ++ t) c = contains s c || contains t c.
Proof. unfold contains. apply existsb_app. Qed.

(** The first [sep] of a line is at one place only. *)
Lemma follows_first_unique (line : str) (sep : ascii) (r1 r2 : str) :
  follows_first line sep r1 -> follows_first line sep r2 -> r1 = r2.
Proof.
  intros (b1 & E1 & H1) (b2 & E2 & H2). subst line.
  revert b2 E2 H2 H1. induction b1 as [|c b1 IH]; intros b2 E2 H2 H1.
  - destruct b2 as [|c2 b2]; simpl in E2; [now injection E2|].
    injection E2 as <- _. simpl in H2. now rewrite Ascii.eqb_refl in H2.
  - destruct b2 as [|c2 b2]; simpl in E2.
    + injection E2 as -> _. simpl in H1. now rewrite Ascii.eqb_refl in H1.
    + injection E2 as <- E2. simpl in H1, H2.
      apply orb_false_iff in H1 as [_ H1]. apply orb_false_iff in H2 as [_ H2].
      now apply (IH b2).
Qed.

Lemma split_once_last_part (s : str) (sep : ascii) :
  part_of s (split_once_last s sep).
Proof.
  unfold split_once_last. pose proof (after_sep_cut s sep) as H.
  destruct (after_sep s sep) as [rest|]; simpl; [|apply part_of_refl].
  destruct H as (before & -> & _). exists (before ++ [sep]), [].
  now rewrite app_nil_r, <- app_assoc.
Qed.

Lemma split_shape (s : str) (sep : ascii) :
  exists piece pieces after,
    split s sep = piece :: pieces
    /\ s = piece ++ after
    /\ Forall (part_of s) pieces.
Proof.
  induction s as [|c s (piece & pieces & after & E & Hs & Hps)]; simpl.
  - now exists [], [], [].
  - rewrite E. destruct (Ascii.eqb c sep).
    + exists [], (piece :: pieces), (c :: s). repeat split.
      constructor.
      * apply part_of_cons. exists [], after. exact Hs.
      * eapply Forall_impl; [exact Hps|]. intros t. apply part_of_cons.
    + exists (c :: piece), pieces, after. repeat split.
      * simpl. now rewrite <- Hs.
      * eapply Forall_impl; [exact Hps|]. intros t. apply part_of_cons.
Qed.

Lemma split_parts (s : str) (sep : ascii) : Forall (part_of s) (split s sep).
Proof.
  destruct (split_shape s sep) as (piece & pieces & after & -> & Hs & Hps).
  constructor; [|exact Hps]. now exists [], after.
Qed.

(** A property of every question the loop appends is a property of every
    question it returns. *)
Lemma parse_lines_Forall (P : str -> Prop) (lines : list str) :
  (forall line,
      In line lines ->
      strip line <> [] ->
      list_item (strip line) ->
      forall question,
        question = (if contains (strip line) "-"
                    then strip (split_once_last (strip line) "-")
                    else strip (split_once_last (strip line) ".")) ->
        question <> [] -> endswith question "?" = true -> P question) ->
  forall questions, Forall P questions -> Forall P (parse_lines lines questions).
Proof.
  induction lines as [|line rest IH]; intros Hstep questions Hq; simpl;
    [exact Hq|].
  assert (Hrest : forall l, In l rest -> strip l <> [] -> list_item (strip l) ->
                            forall q,
                              q = (if contains (strip l) "-"
                                   then strip (split_once_last (strip l) "-")
                                   else strip (split_once_last (strip l) ".")) ->
                              q <> [] -> endswith q "?" = true -> P q)
    by (intros l Hl; apply Hstep; now right).
  destruct (truthy (strip line)
            && (starts_with_digit (strip line) || startswith (strip line) "-"))
    eqn:E1; [|now apply IH].
  apply andb_true_iff in E1 as [Hne Hitem].
  destruct (truthy _ && endswith _ "?") eqn:E2; [|now apply IH].
  apply andb_true_iff in E2 as [Hq1 Hq2].
  apply IH; [exact Hrest|].
  apply Forall_app. split; [exact Hq|].
  constructor; [|constructor].
  apply (Hstep line);
    [now left | now apply truthy_true | exact Hitem | reflexivity
     | now apply truthy_true | exact Hq2].
Qed.

(** Whatever the model answers, at most five questions are returned, and
    each is not empty, has no white space at either end and ends in a
    question mark. *)
Theorem follow_up_questions_well_formed (generate_response : str -> Z -> str)
        (topic : str) (documents : list Doc) :
  (List.length (generate_follow_up_questions generate_response topic documents)
   <= 5)%nat
  /\ Forall well_formed_question
            (generate_follow_up_questions generate_response topic documents).
Proof.
  destruct documents as [|doc rest]; simpl; [split; [lia | constructor]|].
  unfold parse_questions. split; [rewrite length_take; lia|].
  apply Forall_take. apply parse_lines_Forall; [|constructor].
  intros line _ _ _ question E Hne Hend. repeat split; try assumption.
  unfold trimmed. rewrite E.
  destruct (contains (strip line) "-"); apply strip_idem.
Qed.

(** Every question returned stands in the model's answer as one piece and
    comes from a line that, stripped, is a list item (it begins with a
    digit or a hyphen); when that line holds a hyphen, the question is what
    follows the line's first hyphen, whatever stands before it. *)
Theorem questions_come_from_list_items (generate_response : str -> Z -> str)
        (topic : str) (documents : list Doc) :
  Forall (fun q =>
            part_of (generate_response (follow_up_prompt topic documents) 500) q
            /\ exists line,
                In line (split (generate_response
                                  (follow_up_prompt topic documents) 500) "010")
                /\ list_item (strip line)
                /\ forall rest,
                    follows_first (strip line) "-" rest -> q = strip rest)
         (generate_follow_up_questions generate_response topic documents).
Proof.
  destruct documents as [|doc docs]; simpl; [constructor|].
  set (response := generate_response (follow_up_prompt topic (doc :: docs)) 500).
  unfold parse_questions. apply Forall_take.
  apply parse_lines_Forall; [|constructor].
  intros line Hin _ Hitem question E _ _.
  assert (Hline : part_of response (strip line)).
  { pose proof (split_parts response "010") as Hparts.
    rewrite List.Forall_forall in Hparts.
    exact (part_of_trans _ _ _ (Hparts line Hin) (part_of_strip line)). }
  split.
  - apply (part_of_trans _ _ _ Hline). rewrite E.
    destruct (contains (strip line) "-");
      exact (part_of_trans _ _ _ (split_once_last_part _ _) (part_of_strip _)).
  - exists line. repeat split; [exact Hin | exact Hitem |].
    intros rest Hrest.
    assert (Hc : contains (strip line) "-" = true).
    { destruct Hrest as (before & -> & _). rewrite contains_app. simpl.
      now rewrite orb_true_r. }
    rewrite Hc in E. rewrite E. f_equal.
    unfold split_once_last. pose proof (after_sep_cut (strip line) "-") as H.
    destruct (after_sep (strip line) "-") as [rest'|]; simpl; [|congruence].
    exact (follows_first_unique _ _ _ _ H Hrest).
Qed.

(** The examples' answer: of "1. What is a well-known fact?" only what
    follows the hyphen is kept, and the line that is no question is
    dropped. *)
Example sample_response_questions :
  generate_follow_up_questions canned_response (lit "sky") [doc_with_url]
  = [lit "known fact?"; lit "Why is the sky blue?"; lit "How so?"].
Proof. reflexivity. Qed.

End GeminiSpec.
